(** * tidypolars4sci: the data loader and its hierarchical-header flattener

    A shallow embedding of [tidypolars4sci/io.py] and of the path
    normaliser of [tidypolars4sci/utils.py], with the properties of
    the loader stated and proved over it.

    Python values are embedded as follows.
    - A [str] is a [string]: the sequence of its characters, each of them
      a code point below 256. Strings with a character beyond that range
      are not values of the embedding.
    - A header cell, a label or a sentinel is a [pyval]: [None], a [str],
      or any other scalar, which is kept with the text [str()] gives it.
    - A [dict] keyed by strings is a [gmap string _]; a [Counter] is a
      [gmap string nat].
    - A [list] indexed by position is a [list] read with [!!] and written
      with [<[_:=_]>]; an index out of range raises [IndexError].
    - A raised exception is the [Raise] branch of [result]. *)

From Stdlib Require Import ZArith Ascii String List Lia Bool.
From stdpp Require Import base option list strings gmap pretty.

Local Open Scope Z_scope.
Local Open Scope nat_scope.

(** ** Exceptions and results *)

Inductive exn : Type :=
  | AssertionError (msg : string)
  | ValueError (msg : string)
  | TypeError (msg : string)
  | IndexError (msg : string)
  | UnboundLocalError (msg : string)
  | RuntimeError (msg : string)
  | DuplicateError.

Inductive result (A : Type) : Type :=
  | Return (a : A)
  | Raise (e : exn).
Arguments Return {A} a.
Arguments Raise {A} e.

Definition result_bind {A B : Type} (f : A → result B) (m : result A) : result B :=
  match m with
  | Return a => f a
  | Raise e => Raise e
  end.

#[global] Instance result_mbind : MBind result := @result_bind.
#[global] Instance result_mret : MRet result := @Return.

(** [for x in xs: s = body(x, s)], stopping at the first exception. *)
Fixpoint for_in {X S : Type} (xs : list X) (body : X → S → result S) (s : S)
  : result S :=
  match xs with
  | [] => Return s
  | x :: rest =>
      match body x s with
      | Return s' => for_in rest body s'
      | Raise e => Raise e
      end
  end.

(** [[f(x) for x in xs]] where [f] may raise. *)
Fixpoint list_comp {X Y : Type} (f : X → result Y) (xs : list X)
  : result (list Y) :=
  match xs with
  | [] => Return []
  | x :: rest =>
      match f x with
      | Return y =>
          match list_comp f rest with
          | Return ys => Return (y :: ys)
          | Raise e => Raise e
          end
      | Raise e => Raise e
      end
  end.

(** [l[i]] and [l[i] = x] on a Python list. *)
Definition getitem {A : Type} (l : list A) (i : nat) : result A :=
  match l !! i with
  | Some x => Return x
  | None => Raise (IndexError "list index out of range")
  end.

Definition setitem {A : Type} (l : list A) (i : nat) (x : A) : result (list A) :=
  if decide (i < length l) then Return (<[i:=x]> l)
  else Raise (IndexError "list assignment index out of range").

(** [rows[r][c]] and [rows[r][c] = x]. *)
Definition getitem2 {A : Type} (rows : list (list A)) (r c : nat) : result A :=
  row ← getitem rows r; getitem row c.

Definition setitem2 {A : Type} (rows : list (list A)) (r c : nat) (x : A)
  : result (list (list A)) :=
  row ← getitem rows r; row' ← setitem row c x; setitem rows r row'.

(** ** Python values and strings *)

Inductive pyval : Type :=
  | PNone
  | PStr (s : string)
  | POther (repr : string).

#[global] Instance pyval_eq_dec : EqDecision pyval.
Proof. solve_decision. Defined.

(** [str(v)] *)
Definition py_str (v : pyval) : string :=
  match v with
  | PNone => "None"
  | PStr s => s
  | POther repr => repr
  end.

(** [c.isspace()], the characters [str.strip()] removes: below 256 these
    are the codes 9 to 13, 28 to 31 and 32, the next-line control 133
    (U+0085) and the no-break space 160 (U+00A0). *)
Definition py_isspace (a : ascii) : bool :=
  match a with
  | "009" | "010" | "011" | "012" | "013"
  | "028" | "029" | "030" | "031" | " "
  | "133" | "160" => true
  | _ => false
  end%char.

Fixpoint lstrip (s : string) : string :=
  match s with
  | EmptyString => EmptyString
  | String a s' => if py_isspace a then lstrip s' else s
  end.

Fixpoint rstrip (s : string) : string :=
  match s with
  | EmptyString => EmptyString
  | String a s' =>
      match rstrip s' with
      | EmptyString => if py_isspace a then EmptyString else String a EmptyString
      | r => String a r
      end
  end.

(** [s.strip()] *)
Definition strip (s : string) : string := rstrip (lstrip s).

Definition str_eqb (s t : string) : bool := bool_decide (s = t).

(** A string is true in a condition when it is not empty. *)
Definition str_truthy (s : string) : bool := negb (str_eqb s "").

(** ** The default combine rule: [read_data._combine_with_parens] *)

(** [l not in (None, "", "None")] *)
Definition not_in_blank_tuple (l : pyval) : bool :=
  negb (bool_decide (l = PNone) || bool_decide (l = PStr "")
        || bool_decide (l = PStr "None")).

(** [cleaned = [str(l).strip() for l in levels if l not in (None, "", "None")]] *)
Definition combine_cleaned (levels : list pyval) : list string :=
  map (λ l, strip (py_str l)) (filter (λ l, not_in_blank_tuple l = true) levels).

Definition _combine_with_parens (levels : list pyval) (sep : string) : string :=
  let cleaned := combine_cleaned levels in
  match cleaned with
  | [] => ""
  | base :: rest =>
      let lowers := filter (λ lvl, str_truthy lvl = true) rest in
      match lowers with
      | [] => base
      | _ => base +:+ " (" +:+ String.concat sep lowers +:+ ")"
      end
  end.

(** ** The flattener: [read_data._apply_multiheader_from_frames] *)

(** The value of the option [header_combine_rule]: the shorthand ['_'] or a
    function from the clean levels to a name. *)
Inductive combine_rule : Type :=
  | CombineUnderscore
  | CombineFn (f : list string → string).

(** The keyword arguments the flattener reads; [None] is an option the
    caller did not pass. *)
Record multiheader_kws : Type := {
  header_combine_rule : option combine_rule;
  combine_parenthesis_sep : option string;
  multi_col_sentinel : option pyval;
}.

Definition no_kws : multiheader_kws :=
  {| header_combine_rule := None;
     combine_parenthesis_sep := None;
     multi_col_sentinel := None |}.

(** The defaults are those of the signature of the function. *)
Definition kws_sep (kws : multiheader_kws) : string :=
  default "; " (combine_parenthesis_sep kws).

Definition kws_sentinel (kws : multiheader_kws) : pyval :=
  default (PStr "None") (multi_col_sentinel kws).

Definition chosen_combine (kws : multiheader_kws) : list string → string :=
  match header_combine_rule kws with
  | None => λ levels, _combine_with_parens (PStr <$> levels) (kws_sep kws)
  | Some CombineUnderscore => λ levels, String.concat "_" levels
  | Some (CombineFn f) => f
  end.

(** [val is None or val == "" or (isinstance(val, str) and val == sentinel)] *)
Definition is_missing (sentinel val : pyval) : bool :=
  match val with
  | PNone => true
  | PStr s => str_eqb s "" || bool_decide (PStr s = sentinel)
  | POther _ => false
  end.

(** Step 1, the body of the loop over [c] for the row [r]; the state is
    the header and [last_val]. *)
Definition ffill_cell (sentinel : pyval) (r c : nat)
    (st : list (list pyval) * pyval) : result (list (list pyval) * pyval) :=
  let '(header_rows, last_val) := st in
  val ← getitem2 header_rows r c;
  if is_missing sentinel val then
    header_rows' ← setitem2 header_rows r c last_val;
    mret (header_rows', last_val)
  else mret (header_rows, PStr (py_str val)).

Definition ffill_row (sentinel : pyval) (n_cols r : nat)
    (header_rows : list (list pyval)) : result (list (list pyval)) :=
  st ← for_in (seq 0 n_cols) (ffill_cell sentinel r) (header_rows, PNone);
  mret st.1.

Definition forward_fill_upper (sentinel : pyval) (n_levels n_cols : nat)
    (header_rows : list (list pyval)) : result (list (list pyval)) :=
  for_in (seq 0 (n_levels - 1)) (ffill_row sentinel n_cols) header_rows.

(** Step 2, the body of the loop over [c] for the last row. *)
Definition clean_last_cell (sentinel : pyval) (last_idx c : nat)
    (header_rows : list (list pyval)) : result (list (list pyval)) :=
  val ← getitem2 header_rows last_idx c;
  if is_missing sentinel val then setitem2 header_rows last_idx c PNone
  else setitem2 header_rows last_idx c (PStr (py_str val)).

Definition clean_last_level (sentinel : pyval) (n_levels n_cols : nat)
    (header_rows : list (list pyval)) : result (list (list pyval)) :=
  for_in (seq 0 n_cols) (clean_last_cell sentinel (n_levels - 1)) header_rows.

(** [[str(x).strip() for x in levels if x is not None and str(x).strip() != ""]] *)
Definition clean_level (x : pyval) : option string :=
  match x with
  | PNone => None
  | _ => let s := strip (py_str x) in if str_eqb s "" then None else Some s
  end.

Definition levels_clean_of (levels : list pyval) : list string :=
  omap clean_level levels.

(** [[header_rows[r][c] for r in range(n_levels)]] *)
Definition column_levels (n_levels : nat) (header_rows : list (list pyval))
    (c : nat) : result (list pyval) :=
  list_comp (λ r, getitem2 header_rows r c) (seq 0 n_levels).

(** The loop that fills [cleaned_levels_per_col] and [base_names]. *)
Definition collect_levels_step (n_levels : nat) (header_rows : list (list pyval))
    (c : nat) (st : list (list string) * list (option string))
  : result (list (list string) * list (option string)) :=
  levels ← column_levels n_levels header_rows c;
  let levels_clean := levels_clean_of levels in
  mret (st.1 ++ [levels_clean], st.2 ++ [head levels_clean]).

Definition collect_levels (n_levels n_cols : nat) (header_rows : list (list pyval))
  : result (list (list string) * list (option string)) :=
  for_in (seq 0 n_cols) (collect_levels_step n_levels header_rows) ([], []).

(** [collections.Counter] over strings. *)
Definition Counter (xs : list string) : gmap string nat :=
  foldl (λ m b, <[b := S (default 0 (m !! b))]> m) ∅ xs.

(** Step 3, the body of the loop that builds [new_names]. *)
Definition new_name_step (combine : list string → string)
    (cleaned_levels_per_col : list (list string)) (base_counts : gmap string nat)
    (c : nat) (new_names : list string) : result (list string) :=
  levels_clean ← getitem cleaned_levels_per_col c;
  match levels_clean with
  | [] => mret (new_names ++ ["column_" +:+ pretty (c + 1)])
  | base :: _ =>
      if decide (default 0 (base_counts !! base) = 1)
      then mret (new_names ++ [base])
      else mret (new_names ++ [combine levels_clean])
  end.

Definition build_new_names (combine : list string → string) (n_cols : nat)
    (cleaned_levels_per_col : list (list string))
    (base_names : list (option string)) : result (list string) :=
  let base_counts := Counter (omap id base_names) in
  for_in (seq 0 n_cols)
    (new_name_step combine cleaned_levels_per_col base_counts) [].

(** Steps 1 and 2 together: the header as the later steps see it. *)
Definition fill_and_clean (sentinel : pyval) (n_levels n_cols : nat)
    (header_rows : list (list pyval)) : result (list (list pyval)) :=
  header_rows1 ← forward_fill_upper sentinel n_levels n_cols header_rows;
  clean_last_level sentinel n_levels n_cols header_rows1.

(** [dict(zip(keys, vals))] *)
Definition dict_zip (keys vals : list string) : gmap string string :=
  foldl (λ m kv, <[kv.1 := kv.2]> m) ∅ (zip keys vals).

(** The column names of [df.rename(mapping)]. A frame cannot hold two
    columns of the same name: when two of the requested names are equal the
    engine raises [polars.exceptions.DuplicateError], which is kept here
    without its message. *)
Definition rename (columns : list string) (mapping : gmap string string)
  : result (list string) :=
  let renamed := map (λ col, default col (mapping !! col)) columns in
  if decide (NoDup renamed) then Return renamed
  else Raise DuplicateError.

(** The value of [new_names] once the header has been checked. *)
Definition header_new_names (kws : multiheader_kws) (n_levels n_cols : nat)
    (header_rows : list (list pyval)) : result (list string) :=
  header_rows2 ← fill_and_clean (kws_sentinel kws) n_levels n_cols header_rows;
  st ← collect_levels n_levels n_cols header_rows2;
  build_new_names (chosen_combine kws) n_cols st.1 st.2.

(** A frame is given by its column names; the flattener reads nothing
    else of [df_data], and [df_header] by its rows. The result is the column
    names of the renamed copy. *)
Definition _apply_multiheader_from_frames (df_data_columns : list string)
    (df_header_rows : list (list pyval)) (kws : multiheader_kws)
  : result (list string) :=
  let header_rows := df_header_rows in
  let n_levels := length header_rows in
  if decide (n_levels = 0) then
    Raise (ValueError "df_header must have at least one row (a header level).")
  else
    row0 ← getitem header_rows 0;
    let n_cols := length row0 in
    if decide (length df_data_columns ≠ n_cols) then
      Raise (ValueError ("df_data has " +:+ pretty (length df_data_columns)
                         +:+ " columns but df_header has " +:+ pretty n_cols
                         +:+ "."))
    else
      new_names ← header_new_names kws n_levels n_cols header_rows;
      let mapping := dict_zip df_data_columns new_names in
      rename df_data_columns mapping.

(** The rows of a frame all have the width of the frame. *)
Definition rectangular (n_cols : nat) (rows : list (list pyval)) : Prop :=
  Forall (λ row, length row = n_cols) rows.

(** The header of the documentation: two levels over three columns. *)
Definition party_header : list (list pyval) :=
  [ [PStr "Party"; PStr "Party"; PStr "Age"];
    [PStr "Code"; PStr "Value"; PStr "Value"] ].

(** ** The label model: [DATA_LABELS] *)

#[global] Instance pyval_countable : Countable pyval.
Proof.
  refine (inj_countable'
    (λ v, match v with
          | PNone => inl ()
          | PStr s => inr (inl s)
          | POther r => inr (inr r)
          end)
    (λ x, match x with
          | inl _ => PNone
          | inr (inl s) => PStr s
          | inr (inr r) => POther r
          end) _).
  by intros [].
Defined.

(** The fields after [__post_init__]: every label is a string and every
    value-label dictionary a dictionary from raw codes to strings. *)
Record DATA_LABELS : Type := {
  original : list string;
  variables : gmap string string;
  values : gmap string (gmap pyval string);
}.

(** [isinstance(v, str) and v.strip()] *)
Definition real_label (v : pyval) : option string :=
  match v with
  | PStr s => if str_truthy (strip s) then Some s else None
  | _ => None
  end.

(** [isinstance(d, dict) and len(d) > 0]; an entry that is not a dictionary
    is [None]. *)
Definition real_value_labels (d : option (gmap pyval string))
  : option (gmap pyval string) :=
  match d with
  | Some m => if decide (0 < size m) then Some m else None
  | None => None
  end.

(** The body of [for var in self.original]. *)
Definition label_step (kept : gmap string string)
    (variables_final : gmap string string) (var : string) : gmap string string :=
  let label := match kept !! var with None => var | Some l => l end in
  <[var := label]> variables_final.

(** The construction of a [DATA_LABELS] from the raw dictionaries. *)
Definition __post_init__ (original0 : list string)
    (variables0 : gmap string pyval)
    (values0 : gmap string (option (gmap pyval string))) : DATA_LABELS :=
  let kept := omap real_label variables0 in
  let variables_final := foldl (label_step kept) ∅ original0 in
  {| original := original0;
     variables := variables_final;
     values := omap real_value_labels values0 |}.

(** ** The path normaliser: [utils._expand_to_full_path_or_url] *)

(** What depends on the machine and not on the program. [resolve_path s] is
    [str(Path(s).expanduser().resolve())], which raises [ValueError] on a
    path with a null character and [RuntimeError] when the home directory
    of a leading ["~"] cannot be found; [isfile] is [os.path.isfile],
    [netloc_ok] is the validation [urlsplit] applies to a network location
    with a bracketed host or a character outside ASCII, and
    [unquote_escapes] is [unquote] on a string that holds a ["%"]. *)
Record os_env : Type := {
  resolve_path : string → result string;
  isfile : string → bool;
  netloc_ok : string → bool;
  unquote_escapes : string → string;
}.

(** The argument [p]: [None], a [str], or a [pathlib.Path] with its text. *)
Inductive location : Type :=
  | LocNone
  | LocStr (s : string)
  | LocPath (p : string).

Definition ascii_in (a : ascii) (s : string) : bool :=
  existsb (Ascii.eqb a) (list_ascii_of_string s).

(** [s.split(c, 1)] when [c] occurs in [s]: the text before the first [c]
    and the text after it. *)
Fixpoint str_cut (c : ascii) (s : string) : option (string * string) :=
  match s with
  | EmptyString => None
  | String a s' =>
      if Ascii.eqb a c then Some (EmptyString, s')
      else match str_cut c s' with
           | Some (before, after) => Some (String a before, after)
           | None => None
           end
  end.

(** [sub in s] *)
Fixpoint str_contains (sub s : string) : bool :=
  String.prefix sub s ||
  match s with
  | EmptyString => false
  | String _ s' => str_contains sub s'
  end.

Fixpoint str_remove (p : ascii → bool) (s : string) : string :=
  match s with
  | EmptyString => EmptyString
  | String a s' => if p a then str_remove p s' else String a (str_remove p s')
  end.

Fixpoint str_lstrip (p : ascii → bool) (s : string) : string :=
  match s with
  | EmptyString => EmptyString
  | String a s' => if p a then str_lstrip p s' else s
  end.

(** The longest prefix without a character of [stop], and the rest. *)
Fixpoint str_span (stop : string) (s : string) : string * string :=
  match s with
  | EmptyString => (EmptyString, EmptyString)
  | String a s' =>
      if ascii_in a stop then (EmptyString, s)
      else let '(pre, rest) := str_span stop s' in (String a pre, rest)
  end.

Definition is_c0_or_space (a : ascii) : bool := (nat_of_ascii a <=? 32)%nat.

Definition is_unsafe_url_byte (a : ascii) : bool :=
  ascii_in a (String "009" (String "010" (String "013" EmptyString))).

Definition is_ascii_alpha (a : ascii) : bool :=
  let n := nat_of_ascii a in
  ((65 <=? n) && (n <=? 90)) || ((97 <=? n) && (n <=? 122)).

Definition is_scheme_char (a : ascii) : bool :=
  let n := nat_of_ascii a in
  is_ascii_alpha a || ((48 <=? n) && (n <=? 57)) || ascii_in a "+-.".

(** [c.lower()]: below 256 the capital letters are the codes 65 to 90 and
    192 to 222 without the multiplication sign 215. *)
Definition ascii_lower (a : ascii) : ascii :=
  let n := nat_of_ascii a in
  if ((65 <=? n) && (n <=? 90))
     || ((192 <=? n) && (n <=? 222) && negb (n =? 215))
  then ascii_of_nat (n + 32) else a.

Definition str_lower (s : string) : string :=
  string_of_list_ascii (map ascii_lower (list_ascii_of_string s)).

(** The fields of a parsed URL that the normaliser reads. *)
Record parsed_url : Type := {
  scheme : string;
  netloc : string;
  path : string;
}.

(** The scheme of [urlsplit]: the text before the first [":"] when it is not
    empty, starts with a letter and holds scheme characters only. *)
Definition split_scheme (url : string) : string * string :=
  match str_cut ":" url with
  | Some (String a pre, rest) =>
      if is_ascii_alpha a && forallb is_scheme_char (list_ascii_of_string pre)
      then (str_lower (String a pre), rest)
      else (EmptyString, url)
  | _ => (EmptyString, url)
  end.

(** [_splitnetloc(url, 2)] when [url] starts with ["//"]. *)
Definition split_netloc (url : string) : string * string :=
  match url with
  | String "/" (String "/" rest) => str_span "/?#" rest
  | _ => (EmptyString, url)
  end.

(** [urllib.parse.urlparse], as far as the scheme, the network location and
    the path go. The path is the one [urlsplit] returns: the further split
    of the parameters is not applied to the scheme ["file"], the only one
    whose path the normaliser reads. *)
Definition urlparse (E : os_env) (url0 : string) : result parsed_url :=
  let url1 := str_remove is_unsafe_url_byte (str_lstrip is_c0_or_space url0) in
  let '(sch, url2) := split_scheme url1 in
  let '(loc, url3) := split_netloc url2 in
  let bracketed := ascii_in "[" loc && ascii_in "]" loc in
  let non_ascii :=
    existsb (λ a, 128 <=? nat_of_ascii a) (list_ascii_of_string loc) in
  if xorb (ascii_in "[" loc) (ascii_in "]" loc)
  then Raise (ValueError "Invalid IPv6 URL")
  else if (bracketed || non_ascii) && negb (netloc_ok E loc)
  then Raise (ValueError "invalid netloc")
  else
    let url4 := match str_cut "#" url3 with Some (u, _) => u | None => url3 end in
    let url5 := match str_cut "?" url4 with Some (u, _) => u | None => url4 end in
    Return {| scheme := sch; netloc := loc; path := url5 |}.

(** [urllib.request.url2pathname] on a POSIX host: [unquote]. *)
Definition url2pathname (E : os_env) (pathname : string) : string :=
  if ascii_in "%" pathname then unquote_escapes E pathname else pathname.

Definition _expand_to_full_path_or_url (E : os_env) (p : location)
  : result (option string) :=
  match p with
  | LocNone => Return None
  | LocPath t => full ← resolve_path E t; mret (Some full)
  | LocStr s =>
      if negb (str_truthy s) then Return (Some s)
      else if str_contains "://" s then
        parsed ← urlparse E s;
        if str_eqb (scheme parsed) "file" then
          let local_path := url2pathname E (path parsed) in
          full ← resolve_path E local_path; mret (Some full)
        else if str_truthy (scheme parsed) then Return (Some s)
        else full ← resolve_path E s; mret (Some full)
      else full ← resolve_path E s; mret (Some full)
  end.

(** A host for the examples: no symbolic links, the working directory is
    the root, and the paths of the examples are already canonical. *)
Definition example_env : os_env :=
  {| resolve_path := λ s, Return s;
     isfile := λ s, str_eqb s "/tmp/x.csv";
     netloc_ok := λ _, true;
     unquote_escapes := λ s, s |}.

(** A host like it on which [unquote] decodes the escape of ["/tmp/a%41"]. *)
Definition decoding_env : os_env :=
  {| resolve_path := λ s, Return s;
     isfile := λ _, false;
     netloc_ok := λ _, true;
     unquote_escapes := λ s, if str_eqb s "/tmp/a%41" then "/tmp/aA" else s |}.

(** A host like the first that refuses a path with a null character, and
    on which nobody is called [nosuchuser]. *)
Definition refusing_env : os_env :=
  {| resolve_path := λ s, if ascii_in "000" s
                          then Raise (ValueError "embedded null byte")
                          else if String.prefix "~nosuchuser/" s
                          then Raise (RuntimeError
                                        "Could not determine home directory.")
                          else Return s;
     isfile := λ _, false;
     netloc_ok := λ _, true;
     unquote_escapes := λ s, s |}.

(** ** The dispatcher and the readers: [read_data] *)

(** The keyword arguments of [read_data] that decide where a call goes;
    [None] is an argument the caller did not pass. [kw_names] is the names
    of all the keyword arguments of the call, in the order the caller wrote
    them, which is the order of the dictionary [kws]. *)
Record read_kws : Type := {
  kw_names : list string;
  kw_fn : location;
  kw_url : option string;
  kw_credentials : option string;
  kw_big_data : bool;
  kw_cols : option (list string);
  kw_rows_range : option (list Z);
}.

(** The call a reader makes to the parser it adapts; the table a reader
    returns is whatever that call gives. *)
Inductive parser_call : Type :=
  | CallReadCsv
  | CallReadExcel
  | CallReadStata
  | CallReadSav (usecols : option (list string)) (row_offset row_limit : Z)
  | CallLoadR
  | CallGspread (url credentials : string).

Definition opt_truthy (o : option string) : bool :=
  match o with
  | Some s => str_truthy s
  | None => false
  end.

(** [read_data.read_sav], up to the call of [pyreadstat.read_sav]. *)
Definition read_sav (kws : read_kws) : result parser_call :=
  let cols := kw_cols kws in
  range ← match kw_rows_range kws with
          | Some rows =>
              r0 ← getitem rows 0;
              let row_first := (r0 - 1)%Z in
              r1 ← getitem rows 1;
              let row_last := (r1 - row_first)%Z in
              mret (row_first, row_last)
          | None => mret (0%Z, 0%Z)
          end;
  mret (CallReadSav cols range.1 range.2).

(** [read_data.read_gspread], up to the first use of the network. *)
Definition read_gspread (kws : read_kws) : result parser_call :=
  if negb (opt_truthy (kw_credentials kws)) then
    Raise (AssertionError
      "A json file with google spreadsheet APIcredentials must be provided.")
  else if negb (opt_truthy (kw_url kws)) then
    Raise (AssertionError "The google spreadsheet URL must be provided.")
  else
    Return (CallGspread (default "" (kw_url kws))
                        (default "" (kw_credentials kws))).

(** [read_dask.__new__] is declared with no parameter at all. A call with
    the keyword arguments [kwnames] is refused for the first of them, and a
    call with [n_args] positional arguments and no keyword for their
    number. *)
Definition read_dask (n_args : nat) (kwnames : list string)
  : result (option parser_call) :=
  match kwnames with
  | name :: _ =>
      Raise (TypeError ("read_dask.__new__() got an unexpected keyword argument '"
                        +:+ name +:+ "'"))
  | [] =>
      if decide (n_args = 0) then Return None
      else Raise (TypeError ("read_dask.__new__() takes 0 positional arguments but "
                             +:+ pretty n_args
                             +:+ (if decide (n_args = 1) then " was given"
                                  else " were given")))
  end.

(** [read_data.get_accepted_file_formats()] *)
Definition csv_like : list string :=
  [".csv"; ".CSV"; ".tsv"; ".TSV"; ".dat"; ".DAT"; ".txt"; ".TXT"].
Definition excel_like : list string :=
  [".xls"; ".xlsx"; ".xlt"; ".XLT"; ".xltx"; ".XLTX"; ".ods"; ".ODS";
   ".XLS"; ".XLSX"].
Definition r_files : list string := [".Rdata"; ".rdata"; ".rda"; ".rds"].
Definition stata_files : list string := [".dta"; ".DTA"].
Definition spss_files : list string := [".sav"].

(** [x in xs] where [x] may be [None] and [xs] holds strings. *)
Definition opt_in (x : option string) (xs : list string) : bool :=
  match x with
  | Some s => bool_decide (s ∈ xs)
  | None => false
  end.

(** [p.rfind(c)], with [None] for [-1]. *)
Fixpoint rfind (c : ascii) (l : list ascii) : option nat :=
  match l with
  | [] => None
  | a :: l' =>
      match rfind c l' with
      | Some i => Some (S i)
      | None => if Ascii.eqb a c then Some 0 else None
      end
  end.

(** [os.path.splitext(p)[1]] on a POSIX host. *)
Definition splitext_ext (p : string) : string :=
  let l := list_ascii_of_string p in
  match rfind "." l with
  | None => ""
  | Some dotIndex =>
      let filenameIndex := match rfind "/" l with Some i => S i | None => 0 end in
      if decide (filenameIndex ≤ dotIndex) then
        if existsb (λ a, negb (Ascii.eqb a "."))
             (take (dotIndex - filenameIndex) (drop filenameIndex l))
        then string_of_list_ascii (drop dotIndex l)
        else ""
      else ""
  end.

(** [bool(re.search(pattern="^http", string=fn))] *)
Definition search_http (fn : option string) : result bool :=
  match fn with
  | Some s => Return (String.prefix "http" s)
  | None => Raise (TypeError "expected string or bytes-like object, got 'NoneType'")
  end.

(** [read_data.__new__]. The result [Some call] is the table of the reader
    that made [call], and [None] is the value [None]. The local [df] is
    [None] here as long as no branch has assigned it. The messages printed
    on the way, and [fn_base] which is only printed, are left out.
    [read_dask(fn, **kws)] hands [__new__] two positional arguments, the
    class and [fn], and every keyword argument of the call. *)
Definition read_data (E : os_env) (kws : read_kws)
  : result (option parser_call) :=
  fn ← _expand_to_full_path_or_url E (kw_fn kws);
  let url := kw_url kws in
  let big_data := kw_big_data kws in
  if negb (opt_truthy fn || opt_truthy url) then
    Raise (AssertionError "Either fn or url must be provided.")
  else
    is_http ← search_http fn;
    if negb is_http && negb (isfile E (default "" fn)) then
      Raise (AssertionError ("File " +:+ default "" fn +:+ " not found."))
    else
      let fn_type :=
        if opt_truthy fn then Some (splitext_ext (default "" fn)) else None in
      df ← (if negb big_data then
              if opt_in fn_type csv_like then mret (Some (Some CallReadCsv))
              else if opt_in fn_type excel_like then
                mret (Some (Some CallReadExcel))
              else if opt_in fn_type stata_files then
                mret (Some (Some CallReadStata))
              else if opt_in fn_type spss_files then
                call ← read_sav kws; mret (Some (Some call))
              else if opt_in fn_type r_files then mret (Some (Some CallLoadR))
              else if opt_truthy (kw_url kws) && opt_truthy (kw_credentials kws)
              then call ← read_gspread kws; mret (Some (Some call))
              else mret (Some None)
            else
              _ ← read_dask 2 (kw_names kws); mret None);
      match df with
      | Some v => Return v
      | None =>
          Raise (UnboundLocalError
            "cannot access local variable 'df' where it is not associated with a value")
      end.

(** ** What the loops compute, as functions *)

(** One pass of step 1 over a row, with [last_val] as it enters the row. *)
Fixpoint ffill (sentinel last_val : pyval) (row : list pyval) : list pyval :=
  match row with
  | [] => []
  | val :: rest =>
      if is_missing sentinel val then last_val :: ffill sentinel last_val rest
      else val :: ffill sentinel (PStr (py_str val)) rest
  end.

(** The value of [last_val] after such a pass. *)
Fixpoint ffill_last (sentinel last_val : pyval) (row : list pyval) : pyval :=
  match row with
  | [] => last_val
  | val :: rest =>
      if is_missing sentinel val then ffill_last sentinel last_val rest
      else ffill_last sentinel (PStr (py_str val)) rest
  end.

(** Step 2 over the last row. *)
Definition clean_last (sentinel : pyval) (row : list pyval) : list pyval :=
  map (λ val, if is_missing sentinel val then PNone else PStr (py_str val)) row.

(** The header once its first [k] rows have been forward-filled. *)
Definition fill_upper (sentinel : pyval) (k : nat) (rows : list (list pyval))
  : list (list pyval) :=
  map (ffill sentinel PNone) (take k rows) ++ drop k rows.

(** The header after steps 1 and 2. *)
Definition filled (sentinel : pyval) (rows : list (list pyval))
  : list (list pyval) :=
  let last_idx := length rows - 1 in
  let rows1 := fill_upper sentinel last_idx rows in
  match rows1 !! last_idx with
  | Some row => <[last_idx := clean_last sentinel row]> rows1
  | None => rows1
  end.

(** The column [c] of a header, top to bottom. *)
Definition column (rows : list (list pyval)) (c : nat) : list pyval :=
  omap (λ row : list pyval, row !! c) rows.

(** The clean-level stacks of a header that went through steps 1 and 2. *)
Definition clean_stacks (n_cols : nat) (rows : list (list pyval))
  : list (list string) :=
  map (λ c, levels_clean_of (column rows c)) (seq 0 n_cols).

(** The name step 3 gives the column [c]. *)
Definition final_name (combine : list string → string)
    (base_counts : gmap string nat) (c : nat) (levels_clean : list string)
  : string :=
  match levels_clean with
  | [] => "column_" +:+ pretty (c + 1)
  | base :: _ =>
      if decide (default 0 (base_counts !! base) = 1) then base
      else combine levels_clean
  end.

Definition final_names (combine : list string → string)
    (stacks : list (list string)) : list string :=
  let base_counts := Counter (omap head stacks) in
  imap (final_name combine base_counts) stacks.

(** ** The words of the specification *)

(** The number of columns whose base name, the first clean level, is [b]. *)
Definition base_occurrences (stacks : list (list string)) (b : string) : nat :=
  length (filter (λ st, head st = Some b) stacks).

(** [w] is the nearest cell on the left of the column [c] of [row] that is
    not missing. *)
Definition nearest_left (sentinel : pyval) (row : list pyval) (c : nat)
    (w : pyval) : Prop :=
  ∃ j, j < c ∧ row !! j = Some w ∧ is_missing sentinel w = false ∧
       ∀ k u, j < k < c → row !! k = Some u → is_missing sentinel u = true.

(** Every cell on the left of the column [c] of [row] is missing. *)
Definition none_left (sentinel : pyval) (row : list pyval) (c : nat) : Prop :=
  ∀ j u, j < c → row !! j = Some u → is_missing sentinel u = true.

(** A first level followed by the other levels, joined by [sep], between
    parentheses; a single level stands alone. *)
Definition paren_name (sep : string) (levels : list string) : string :=
  match levels with
  | [] => ""
  | [l1] => l1
  | l1 :: rest => l1 +:+ " (" +:+ String.concat sep rest +:+ ")"
  end.

(** A blank string: white space and nothing else, the empty string among
    them. *)
Definition blank (s : string) : bool :=
  forallb py_isspace (list_ascii_of_string s).

(** The text [NA] in any letter case. *)
Definition na_text (s : string) : Prop := s ∈ ["na"; "NA"; "Na"; "nA"].

(** A clean level is a string that is not empty and has no white space at
    either end. *)
Definition clean_string (l : string) : Prop := strip l = l ∧ l ≠ "".

(** The rows [a] to [b] of a file whose rows are numbered from 1. *)
Definition rows_in_window (a b : Z) : list Z :=
  filter (λ i, (a ≤ i ≤ b)%Z) (seqZ 1 b).

(** An absolute path. *)
Definition is_absolute (p : string) : Prop :=
  ∃ rest, p = String "/" rest.

(** A path that a URL holds as it is: no fragment, query or escape mark and
    no tab or line break. *)
Definition url_plain (p : string) : Prop :=
  Forall (λ a, ascii_in a (String "#" (String "?" (String "%"
     (String "009" (String "010" (String "013" EmptyString)))))) = false)
    (list_ascii_of_string p).

(** The outcome of resolving [s] as a path: the resolved path, or the
    exception of the resolution. *)
Definition resolved (E : os_env) (s : string) : result (option string) :=
  full ← resolve_path E s; mret (Some full).

(** A path that does not start with two slashes. *)
Definition single_root (p : string) : Prop :=
  ∀ rest, p ≠ String "/" (String "/" rest).

(** The computation [m] raises nothing but an index out of range. *)
Definition index_error_only {A : Type} (m : result A) : Prop :=
  ∀ e, m = Raise e → ∃ msg, e = IndexError msg.

(** ** Further code of the loader *)

(** One run of the flattener on the header [row0 :: rest]: the header after
    steps 1 and 2, the clean-level stacks, the list [new_names], and the
    outcome of the call, which is [new_names] when no two of them are equal
    and the refusal of the renaming otherwise. *)
Definition flattener_run (kws : multiheader_kws) (columns : list string)
    (row0 : list pyval) (rest : list (list pyval))
    (rows2 : list (list pyval)) (stacks : list (list string))
    (new_names : list string) : Prop :=
  fill_and_clean (kws_sentinel kws) (length (row0 :: rest)) (length row0)
    (row0 :: rest) = Return rows2 ∧
  collect_levels (length (row0 :: rest)) (length row0) rows2
    = Return (stacks, map head stacks) ∧
  header_new_names kws (length (row0 :: rest)) (length row0) (row0 :: rest)
    = Return new_names ∧
  (NoDup new_names →
     _apply_multiheader_from_frames columns (row0 :: rest) kws
     = Return new_names) ∧
  (¬ NoDup new_names →
     _apply_multiheader_from_frames columns (row0 :: rest) kws
     = Raise DuplicateError).

(** The location of a call passes the checks of [read_data]: it normalises
    to the text [fn], which is not empty and either starts with ["http"] or
    names an existing file. *)
Definition valid_location (E : os_env) (kws : read_kws) (fn : string) : Prop :=
  _expand_to_full_path_or_url E (kw_fn kws) = Return (Some fn) ∧
  str_truthy fn = true ∧
  (String.prefix "http" fn = true ∨ isfile E fn = true).

(** The extension is in none of the five families of the registry. *)
Definition unknown_extension (ext : string) : Prop :=
  (ext ∉ csv_like) ∧ (ext ∉ excel_like) ∧ (ext ∉ stata_files) ∧
  (ext ∉ spss_files) ∧ (ext ∉ r_files).

(** The same machine with another answer to [os.path.isfile]. *)
Definition with_isfile (E : os_env) (f : string → bool) : os_env :=
  {| resolve_path := resolve_path E;
     isfile := f;
     netloc_ok := netloc_ok E;
     unquote_escapes := unquote_escapes E |}.

(** [sep or d]: the separator the caller gave when it is not empty. *)
Definition sep_or (sep : option string) (d : string) : string :=
  match sep with
  | Some s => if str_truthy s then s else d
  | None => d
  end.

(** [read_data.read_csv], the separator handed to [polars.read_csv]: the
    extension is that of the argument [fn] as the caller wrote it. *)
Definition read_csv_separator (fn : string) (sep : option string) : string :=
  let ext := splitext_ext fn in
  if bool_decide (ext ∈ [".tsv"; ".TSV"; ".txt"; ".TXT"]) then
    sep_or sep (String "009" EmptyString)
  else if bool_decide (ext ∈ [".dat"; ".DAT"]) then sep_or sep " "
  else sep_or sep ";".

(** ** The list helpers of [utils.py] *)

(** A Python object as the list helpers see it: a [list] of objects, or
    anything else. *)
#[warnings="-register-all"] Inductive pyobj : Type :=
  | OAtom (v : pyval)
  | OList (items : list pyobj).

(** [utils._is_list] *)
Definition _is_list (x : pyobj) : bool :=
  match x with
  | OList _ => true
  | OAtom _ => false
  end.

(** [x if isinstance(x, list) else [x]] *)
Definition as_items (x : pyobj) : list pyobj :=
  match x with
  | OList items => items
  | OAtom _ => [x]
  end.

(** [utils._list_flatten] *)
Definition _list_flatten (l : list pyobj) : list pyobj :=
  concat (map as_items l).

(** [utils._repeat]; [xs * times] is empty when [times] is not positive. *)
Definition _repeat (x : pyobj) (times : Z) : list pyobj :=
  let xs := if negb (_is_list x) then [x] else as_items x in
  concat (replicate (Z.to_nat times) xs).

(** [utils._filter_kwargs_for], with the names of the parameters of [func]
    in place of [func]. *)
Definition _filter_kwargs_for (allowed : list string)
    (kwargs : gmap string pyval) : gmap string pyval :=
  filter (λ kv, kv.1 ∈ allowed) kwargs.

(** ** The R loader: [io_r.py] *)

(** [repr(s)] for a string with no quote, backslash or character to
    escape, and [repr] of a list of such strings. *)
Definition repr_str (s : string) : string := "'" +:+ s +:+ "'".

Definition repr_list (l : list string) : string :=
  "[" +:+ String.concat ", " (map repr_str l) +:+ "]".

Inductive r_file_type : Type :=
  | RdsFile
  | RdataFile.

(** [io_r._detect_file_type], on the suffix of the path. *)
Definition _detect_file_type (suffix : string) : result r_file_type :=
  let ext := str_lower suffix in
  if str_eqb ext ".rds" then Return RdsFile
  else if bool_decide (ext ∈ [".rdata"; ".rda"]) then Return RdataFile
  else Raise (ValueError ("Unsupported R file extension: " +:+ repr_str ext
                          +:+ " (expected .rds or .RData/.rda)")).

(** A [pathlib.Path] by its text and its suffix. *)
Record r_path : Type := {
  path_text : string;
  path_suffix : string;
}.

Section RSession.
(** The objects of the R interpreter. *)
Variable robj : Type.

(** What the R interpreter answers. [safe_readRDS p] is the result of
    [readRDS] on the file [p], and [None] when it is an [rds_error];
    [r_load p] is the names [load] returns for the file [p];
    [globalenv p name] is the object of that name once [p] is loaded. *)
Record r_session : Type := {
  safe_readRDS : string → option robj;
  r_load : string → list string;
  globalenv : string → string → robj;
  is_data_frame : robj → bool;
}.

(** [for name in loaded_names: ... if is.data.frame: return r_obj] *)
Fixpoint first_data_frame (Rs : r_session) (p : string)
    (loaded_names : list string) : option robj :=
  match loaded_names with
  | [] => None
  | name :: rest =>
      let r_obj := globalenv Rs p name in
      if is_data_frame Rs r_obj then Some r_obj
      else first_data_frame Rs p rest
  end.

(** The branch [file_type == "rdata"] of [_load_r_dataframe]. *)
Definition load_rdata (Rs : r_session) (path : r_path)
    (obj_name : option string) : result robj :=
  let p := path_text path in
  let loaded_names := r_load Rs p in
  match loaded_names with
  | [] => Raise (ValueError ("No objects found in RData file: " +:+ p))
  | _ =>
      match obj_name with
      | Some name =>
          if negb (bool_decide (name ∈ loaded_names)) then
            Raise (ValueError ("Object " +:+ repr_str name +:+ " not found in "
                               +:+ p +:+ ". Available: "
                               +:+ repr_list loaded_names))
          else
            let r_obj := globalenv Rs p name in
            if negb (is_data_frame Rs r_obj) then
              Raise (TypeError ("Object " +:+ repr_str name +:+ " in " +:+ p
                                +:+ " is not an R data.frame."))
            else Return r_obj
      | None =>
          match first_data_frame Rs p loaded_names with
          | Some r_obj => Return r_obj
          | None =>
              Raise (TypeError ("No R data.frame found in " +:+ p
                                +:+ ". Objects present: "
                                +:+ repr_list loaded_names))
          end
      end
  end.

(** [io_r._load_r_dataframe]. The last [raise RuntimeError] of the source
    stands after the two file types and has no case here. *)
Definition _load_r_dataframe (Rs : r_session) (path : r_path)
    (obj_name : option string) : result robj :=
  file_type ← _detect_file_type (path_suffix path);
  match file_type with
  | RdsFile =>
      match safe_readRDS Rs (path_text path) with
      | None => load_rdata Rs path obj_name
      | Some r_df =>
          if negb (is_data_frame Rs r_df) then
            Raise (TypeError ("Object in " +:+ path_text path
                              +:+ " is not an R data.frame."))
          else Return r_df
      end
  | RdataFile => load_rdata Rs path obj_name
  end.
End RSession.

Arguments safe_readRDS {robj} _ _.
Arguments r_load {robj} _ _.
Arguments globalenv {robj} _ _ _.
Arguments is_data_frame {robj} _ _.
Arguments first_data_frame {robj} _ _ _.
Arguments load_rdata {robj} _ _ _.
Arguments _load_r_dataframe {robj} _ _ _.

(** An R vector as [rpy2] hands it over: its [names], [None] when they are
    [NULL], and its elements. *)
Record r_vector : Type := {
  vec_names : option (list pyval);
  vec_items : list pyval;
}.

(** A named R list of vectors: its [names], [None] when they are [NULL],
    and [rx2], which gives [None] for [NULL]. *)
Record r_list : Type := {
  rl_names : option (list string);
  rl_rx2 : string → option r_vector;
}.

(** [io_r._extract_labels], the variable label kept for [var], if any. *)
Definition variable_label_of (var_labels_r : option r_list) (var : string)
  : option string :=
  match var_labels_r with
  | None => None
  | Some rl =>
      if bool_decide (var ∈ default [] (rl_names rl)) then
        match rl_rx2 rl var with
        | None => None
        | Some vlabel_vec =>
            match vec_items vlabel_vec with
            | [] => None
            | x :: _ =>
                let vlabel := py_str x in
                if str_truthy (strip vlabel)
                   && negb (str_eqb (str_lower vlabel) "na")
                then Some vlabel else None
            end
        end
      else None
  end.

(** [{code: lab for code, lab in zip(codes, labs) if lab.strip()}] *)
Definition code_mapping (codes labs : list string) : gmap pyval string :=
  foldl (λ m cl, <[PStr cl.1 := cl.2]> m) ∅
    (filter (λ cl, str_truthy (strip cl.2) = true) (zip codes labs)).

(** [io_r._extract_labels], the value labels kept for [var], if any. *)
Definition value_labels_of (value_labels_r : option r_list) (var : string)
  : option (gmap pyval string) :=
  match value_labels_r with
  | None => None
  | Some rl =>
      if bool_decide (var ∈ default [] (rl_names rl)) then
        match rl_rx2 rl var with
        | None => None
        | Some vlabels_vec =>
            match vec_items vlabels_vec with
            | [] => None
            | _ =>
                match vec_names vlabels_vec with
                | None => None
                | Some vnames =>
                    let codes := map py_str vnames in
                    let labs := map py_str (vec_items vlabels_vec) in
                    let mapping := code_mapping codes labs in
                    if decide (0 < size mapping) then Some mapping else None
                end
            end
        end
      else None
  end.

(** The body of [for var in var_names]; the state is [variables] and
    [values]. *)
Definition extract_step (var_labels_r value_labels_r : option r_list)
    (st : gmap string string * gmap string (gmap pyval string)) (var : string)
  : gmap string string * gmap string (gmap pyval string) :=
  (match variable_label_of var_labels_r var with
   | Some vlabel => <[var := vlabel]> st.1
   | None => st.1
   end,
   match value_labels_of value_labels_r var with
   | Some mapping => <[var := mapping]> st.2
   | None => st.2
   end).

(** [io_r._extract_labels], from the names of the frame and the two lists
    the R function returns. *)
Definition _extract_labels (var_names : list string)
    (var_labels_r value_labels_r : option r_list) : DATA_LABELS :=
  let st := foldl (extract_step var_labels_r value_labels_r) (∅, ∅) var_names in
  __post_init__ var_names (PStr <$> st.1) (Some <$> st.2).

(** ** The remote-spreadsheet reader after the rows are fetched *)

(** [l[:n]] and [l[n:]]; a negative [n] counts from the end. *)
Definition slice_to {A : Type} (l : list A) (n : Z) : list A :=
  if (0 <=? n)%Z then take (Z.to_nat n) l
  else take (length l - Z.to_nat (- n)) l.

Definition slice_from {A : Type} (l : list A) (n : Z) : list A :=
  if (0 <=? n)%Z then drop (Z.to_nat n) l
  else drop (length l - Z.to_nat (- n)) l.

(** A frame by its column names and its rows. *)
Record frame : Type := {
  frame_columns : list string;
  frame_rows : list (list pyval);
}.

(** [read_data.read_gspread] from [rows = ...get_all_values()] on: the
    first [n] rows are the header, the others the data. [to_frame rows] is
    [pl.from_pandas(pd.DataFrame(rows))]. The result is the column names of
    the frame returned. *)
Definition read_gspread_rows (to_frame : list (list string) → frame)
    (rows : list (list string)) (n_headers : option Z) (kws : multiheader_kws)
  : result (list string) :=
  let n := default 1%Z n_headers in
  let dfh := to_frame (slice_to rows n) in
  let df := to_frame (slice_from rows n) in
  _apply_multiheader_from_frames (frame_columns df) (frame_rows dfh) kws.

(** ** Results and loops *)

Lemma bind_Return {A B : Type} (a : A) (f : A → result B) :
  (Return a ≫= f) = f a.
Proof. reflexivity. Qed.

Lemma bind_Raise {A B : Type} (e : exn) (f : A → result B) :
  (Raise e ≫= f) = Raise e.
Proof. reflexivity. Qed.

Lemma getitem_Some {A : Type} (l : list A) (i : nat) (x : A) :
  l !! i = Some x → getitem l i = Return x.
Proof. intros H. unfold getitem. by rewrite H. Qed.

Lemma setitem_lt {A : Type} (l : list A) (i : nat) (x : A) :
  i < length l → setitem l i x = Return (<[i:=x]> l).
Proof. intros H. unfold setitem. by rewrite decide_True. Qed.

Lemma getitem2_Some {A : Type} (rows : list (list A)) (r c : nat) row (x : A) :
  rows !! r = Some row → row !! c = Some x → getitem2 rows r c = Return x.
Proof.
  intros Hr Hc. unfold getitem2.
  rewrite (getitem_Some _ _ _ Hr), bind_Return. by apply getitem_Some.
Qed.

Lemma setitem2_Some {A : Type} (rows : list (list A)) (r c : nat) row (x : A) :
  rows !! r = Some row → c < length row →
  setitem2 rows r c x = Return (<[r := <[c := x]> row]> rows).
Proof.
  intros Hr Hc. unfold setitem2.
  rewrite (getitem_Some _ _ _ Hr), bind_Return.
  rewrite (setitem_lt _ _ _ Hc), bind_Return.
  apply setitem_lt. by eapply lookup_lt_Some.
Qed.

Lemma for_in_app {X S : Type} (xs ys : list X) (body : X → S → result S) s s' :
  for_in xs body s = Return s' →
  for_in (xs ++ ys) body s = for_in ys body s'.
Proof.
  revert s. induction xs as [|x xs IH]; intros s; simpl.
  - by intros [= ->].
  - destruct (body x s) as [s1|e]; [apply IH | discriminate].
Qed.

(** A loop whose body appends one element to the list it builds. *)
Lemma for_in_append {X Y : Type} (xs : list X) (body : X → list Y → result (list Y))
    (h : X → Y) (acc : list Y) :
  (∀ x acc', x ∈ xs → body x acc' = Return (acc' ++ [h x])) →
  for_in xs body acc = Return (acc ++ map h xs).
Proof.
  revert acc. induction xs as [|x xs IH]; intros acc Hbody; simpl.
  - by rewrite app_nil_r.
  - rewrite Hbody by left. rewrite IH.
    + by rewrite <- app_assoc.
    + intros y acc' Hy. apply Hbody. by right.
Qed.

Lemma list_comp_map {X Y : Type} (f : X → result Y) (g : X → Y) (xs : list X) :
  (∀ x, x ∈ xs → f x = Return (g x)) →
  list_comp f xs = Return (map g xs).
Proof.
  induction xs as [|x xs IH]; intros Hf; simpl; [done|].
  rewrite Hf by left. rewrite IH; [done|].
  intros y Hy. apply Hf. by right.
Qed.

Lemma filter_all {A : Type} (P : A → Prop) `{∀ x, Decision (P x)} (l : list A) :
  Forall P l → filter P l = l.
Proof.
  induction 1 as [|x l Hx _ IH]; [done|].
  by rewrite filter_cons, decide_True, IH.
Qed.

Lemma filter_none {A : Type} (P : A → Prop) `{∀ x, Decision (P x)} (l : list A) :
  Forall (λ x, ¬ P x) l → filter P l = [].
Proof.
  induction 1 as [|x l Hx _ IH]; [done|].
  by rewrite filter_cons, decide_False, IH.
Qed.

(** ** Step 1 and step 2 of the flattener *)

Lemma ffill_cell_loop sentinel r suf : ∀ pre rows last_val,
  rows !! r = Some (pre ++ suf) →
  for_in (seq (length pre) (length suf)) (ffill_cell sentinel r) (rows, last_val)
  = Return (<[r := pre ++ ffill sentinel last_val suf]> rows,
            ffill_last sentinel last_val suf).
Proof.
  induction suf as [|val rest IH]; intros pre rows last_val Hrow.
  - simpl. rewrite list_insert_id; [done|]. by rewrite app_nil_r in Hrow |- *.
  - assert (Hlt : r < length rows) by (by eapply lookup_lt_Some).
    assert (Hval : (pre ++ val :: rest) !! length pre = Some val)
      by apply list_lookup_middle, eq_refl.
    cbn [length seq for_in]. unfold ffill_cell at 1.
    rewrite (getitem2_Some _ _ _ _ _ Hrow Hval), bind_Return.
    cbn [ffill ffill_last].
    destruct (is_missing sentinel val).
    + rewrite (setitem2_Some _ _ _ _ _ Hrow), bind_Return
        by (rewrite length_app; simpl; lia).
      cbn [mret result_mret].
      replace (<[length pre := last_val]> (pre ++ val :: rest))
        with ((pre ++ [last_val]) ++ rest).
      2:{ rewrite insert_app_r_alt by lia.
          rewrite Nat.sub_diag. simpl. by rewrite <- app_assoc. }
      replace (S (length pre)) with (length (pre ++ [last_val]))
        by (rewrite length_app; simpl; lia).
      rewrite IH by (by apply list_lookup_insert_eq).
      rewrite list_insert_insert_eq. by rewrite <- app_assoc.
    + cbn [mret result_mret].
      replace (S (length pre)) with (length (pre ++ [val]))
        by (rewrite length_app; simpl; lia).
      rewrite IH by (by rewrite <- app_assoc).
      by rewrite <- app_assoc.
Qed.

Lemma ffill_row_spec sentinel r rows row :
  rows !! r = Some row →
  ffill_row sentinel (length row) r rows
  = Return (<[r := ffill sentinel PNone row]> rows).
Proof.
  intros Hrow. unfold ffill_row.
  pose proof (ffill_cell_loop sentinel r row [] rows PNone Hrow) as Hloop.
  cbn [length app] in Hloop. by rewrite Hloop.
Qed.

Lemma length_ffill sentinel last_val row :
  length (ffill sentinel last_val row) = length row.
Proof.
  revert last_val. induction row as [|val rest IH]; intros last_val; [done|].
  simpl. destruct (is_missing sentinel val); simpl; by rewrite IH.
Qed.

Lemma fill_upper_lookup_ge sentinel k rows r :
  k ≤ r → k ≤ length rows → fill_upper sentinel k rows !! r = rows !! r.
Proof.
  intros Hk Hlen. unfold fill_upper.
  rewrite lookup_app_r; rewrite length_map, length_take; [|lia].
  rewrite lookup_drop. f_equal. lia.
Qed.

Lemma fill_upper_lookup_lt sentinel k rows r :
  r < k → fill_upper sentinel k rows !! r = ffill sentinel PNone <$> rows !! r.
Proof.
  intros Hk. unfold fill_upper.
  destruct (decide (r < length rows)) as [Hr|Hr].
  - rewrite lookup_app_l by (rewrite length_map, length_take; lia).
    rewrite list_lookup_fmap. by rewrite lookup_take_lt.
  - rewrite (lookup_ge_None_2 rows) by lia. simpl.
    apply lookup_ge_None_2.
    rewrite length_app, length_map, length_take, length_drop. lia.
Qed.

Lemma length_fill_upper sentinel k rows :
  length (fill_upper sentinel k rows) = length rows.
Proof.
  unfold fill_upper.
  rewrite length_app, length_map, length_take, length_drop. lia.
Qed.

Lemma fill_upper_S sentinel k rows row :
  rows !! k = Some row →
  <[k := ffill sentinel PNone row]> (fill_upper sentinel k rows)
  = fill_upper sentinel (S k) rows.
Proof.
  intros Hrow.
  assert (Hlt : k < length rows) by (by eapply lookup_lt_Some).
  apply list_eq. intros i.
  destruct (decide (i = k)) as [->|Hne].
  - rewrite list_lookup_insert_eq by (rewrite length_fill_upper; lia).
    rewrite fill_upper_lookup_lt by lia. by rewrite Hrow.
  - rewrite list_lookup_insert_ne by done.
    destruct (decide (i < k)).
    + by rewrite !fill_upper_lookup_lt by lia.
    + by rewrite !fill_upper_lookup_ge by lia.
Qed.

Lemma forward_fill_loop sentinel n_cols rows m : ∀ k,
  rectangular n_cols rows → k + m ≤ length rows →
  for_in (seq k m) (ffill_row sentinel n_cols) (fill_upper sentinel k rows)
  = Return (fill_upper sentinel (k + m) rows).
Proof.
  induction m as [|m IH]; intros k Hrect Hlen.
  - simpl. by rewrite Nat.add_0_r.
  - destruct (lookup_lt_is_Some_2 rows k) as [row Hrow]; [lia|].
    assert (Hw : length row = n_cols).
    { eapply (proj1 (Forall_lookup _ _) Hrect); eauto. }
    cbn [seq for_in]. subst n_cols.
    rewrite (ffill_row_spec sentinel k _ row)
      by (rewrite fill_upper_lookup_ge by lia; done).
    rewrite (fill_upper_S _ _ _ _ Hrow).
    rewrite IH by (done || lia). f_equal. f_equal. lia.
Qed.

Lemma forward_fill_upper_spec sentinel n_cols rows :
  rectangular n_cols rows →
  forward_fill_upper sentinel (length rows) n_cols rows
  = Return (fill_upper sentinel (length rows - 1) rows).
Proof.
  intros Hrect. unfold forward_fill_upper.
  replace rows with (fill_upper sentinel 0 rows) at 2
    by (unfold fill_upper; by rewrite take_0, drop_0).
  rewrite forward_fill_loop by (done || lia). done.
Qed.

Lemma clean_last_loop sentinel r suf : ∀ pre rows,
  rows !! r = Some (pre ++ suf) →
  for_in (seq (length pre) (length suf)) (clean_last_cell sentinel r) rows
  = Return (<[r := pre ++ clean_last sentinel suf]> rows).
Proof.
  induction suf as [|val rest IH]; intros pre rows Hrow.
  - simpl. rewrite list_insert_id; [done|]. by rewrite app_nil_r in Hrow |- *.
  - assert (Hlt : r < length rows) by (by eapply lookup_lt_Some).
    assert (Hval : (pre ++ val :: rest) !! length pre = Some val)
      by apply list_lookup_middle, eq_refl.
    cbn [length seq for_in]. unfold clean_last_cell at 1.
    rewrite (getitem2_Some _ _ _ _ _ Hrow Hval), bind_Return.
    set (new := if is_missing sentinel val then PNone else PStr (py_str val)).
    assert (Hset : (if is_missing sentinel val
                    then setitem2 rows r (length pre) PNone
                    else setitem2 rows r (length pre) (PStr (py_str val)))
                   = Return (<[r := (pre ++ [new]) ++ rest]> rows)).
    { assert (Hins : ∀ x, <[length pre := x]> (pre ++ val :: rest)
                          = (pre ++ [x]) ++ rest).
      { intros x. rewrite insert_app_r_alt by lia.
        rewrite Nat.sub_diag. simpl. by rewrite <- app_assoc. }
      subst new. destruct (is_missing sentinel val);
        rewrite (setitem2_Some _ _ _ _ _ Hrow)
          by (rewrite length_app; simpl; lia);
        by rewrite Hins. }
    rewrite Hset.
    replace (S (length pre)) with (length (pre ++ [new]))
      by (rewrite length_app; simpl; lia).
    rewrite IH by (by apply list_lookup_insert_eq).
    rewrite list_insert_insert_eq. unfold clean_last. simpl.
    by rewrite <- app_assoc.
Qed.

Lemma fill_and_clean_spec sentinel n_cols rows :
  rectangular n_cols rows → rows ≠ [] →
  fill_and_clean sentinel (length rows) n_cols rows
  = Return (filled sentinel rows).
Proof.
  intros Hrect Hne. unfold fill_and_clean.
  rewrite forward_fill_upper_spec by done. rewrite bind_Return.
  unfold clean_last_level, filled.
  assert (Hlen : 0 < length rows) by (destruct rows; simpl; [done|lia]).
  destruct (lookup_lt_is_Some_2 rows (length rows - 1)) as [row Hrow]; [lia|].
  assert (Hrow1 : fill_upper sentinel (length rows - 1) rows
                    !! (length rows - 1) = Some row)
    by (rewrite fill_upper_lookup_ge by lia; done).
  rewrite Hrow1.
  assert (Hw : length row = n_cols).
  { eapply (proj1 (Forall_lookup _ _) Hrect); eauto. }
  subst n_cols.
  pose proof (clean_last_loop sentinel _ row [] _ Hrow1) as Hloop.
  cbn [length app] in Hloop. by rewrite Hloop.
Qed.

Lemma ffill_lookup sentinel row : ∀ c last_val val,
  row !! c = Some val →
  ffill sentinel last_val row !! c
  = Some (if is_missing sentinel val
          then ffill_last sentinel last_val (take c row) else val).
Proof.
  induction row as [|v rest IH]; intros c last_val val Hc; [done|].
  destruct c as [|c]; simpl in *.
  - injection Hc as ->. by destruct (is_missing sentinel val).
  - destruct (is_missing sentinel v); simpl; by apply IH.
Qed.

Lemma ffill_last_app sentinel l1 : ∀ l2 last_val,
  ffill_last sentinel last_val (l1 ++ l2)
  = ffill_last sentinel (ffill_last sentinel last_val l1) l2.
Proof.
  induction l1 as [|v l1 IH]; intros l2 last_val; [done|].
  simpl. destruct (is_missing sentinel v); apply IH.
Qed.

Lemma ffill_last_missing sentinel l last_val :
  Forall (λ u, is_missing sentinel u = true) l →
  ffill_last sentinel last_val l = last_val.
Proof.
  induction 1 as [|u l Hu _ IH]; [done|]. simpl. by rewrite Hu.
Qed.

Lemma ffill_last_none_left sentinel row c last_val :
  none_left sentinel row c →
  ffill_last sentinel last_val (take c row) = last_val.
Proof.
  intros Hnone. apply ffill_last_missing, Forall_lookup.
  intros j u Hj. apply lookup_take_Some in Hj as [Hj Hlt]. eauto.
Qed.

Lemma ffill_last_nearest_left sentinel row c w last_val :
  nearest_left sentinel row c w →
  ffill_last sentinel last_val (take c row) = PStr (py_str w).
Proof.
  intros (j & Hjc & Hj & Hw & Hbetween).
  assert (Hsplit : take c row = take j row ++ w :: take (c - S j) (drop (S j) row)).
  { rewrite <- (take_drop_middle row j w Hj) at 1.
    rewrite take_app_ge; rewrite length_take_le;
      try (apply lookup_lt_Some in Hj; lia).
    f_equal. replace (c - j) with (S (c - S j)) by lia. done. }
  rewrite Hsplit, ffill_last_app. simpl. rewrite Hw.
  apply ffill_last_missing, Forall_lookup.
  intros k u Hk. apply lookup_take_Some in Hk as [Hk Hlt].
  rewrite lookup_drop in Hk. apply (Hbetween (S j + k) u); [lia|done].
Qed.

Lemma length_filled sentinel rows : length (filled sentinel rows) = length rows.
Proof.
  unfold filled.
  destruct (fill_upper sentinel (length rows - 1) rows !! (length rows - 1));
    rewrite ?length_insert; apply length_fill_upper.
Qed.

Lemma filled_lookup_upper sentinel rows r :
  r < length rows - 1 →
  filled sentinel rows !! r = ffill sentinel PNone <$> rows !! r.
Proof.
  intros Hr. unfold filled.
  destruct (fill_upper sentinel (length rows - 1) rows !! (length rows - 1)).
  - rewrite list_lookup_insert_ne by lia. by apply fill_upper_lookup_lt.
  - by apply fill_upper_lookup_lt.
Qed.

Lemma filled_lookup_last sentinel rows :
  filled sentinel rows !! (length rows - 1)
  = clean_last sentinel <$> rows !! (length rows - 1).
Proof.
  unfold filled. rewrite fill_upper_lookup_ge by lia.
  destruct (rows !! (length rows - 1)) as [row|] eqn:Hrow; simpl.
  - apply list_lookup_insert_eq. rewrite length_fill_upper.
    by eapply lookup_lt_Some.
  - rewrite fill_upper_lookup_ge by lia. done.
Qed.

Lemma rectangular_filled sentinel n_cols rows :
  rectangular n_cols rows → rectangular n_cols (filled sentinel rows).
Proof.
  intros Hrect. apply Forall_lookup. intros r row' Hr.
  assert (Hlt : r < length rows).
  { apply lookup_lt_Some in Hr. by rewrite length_filled in Hr. }
  destruct (lookup_lt_is_Some_2 rows r Hlt) as [row Hrow].
  assert (Hw : length row = n_cols).
  { eapply (proj1 (Forall_lookup _ _) Hrect); eauto. }
  destruct (decide (r < length rows - 1)).
  - rewrite filled_lookup_upper, Hrow in Hr by done.
    injection Hr as <-. by rewrite length_ffill.
  - replace r with (length rows - 1) in * by lia.
    rewrite filled_lookup_last, Hrow in Hr.
    injection Hr as <-. unfold clean_last. by rewrite length_map.
Qed.

(** ** Step 3 of the flattener *)

Lemma column_levels_loop (c : nat) (rows : list (list pyval)) : ∀ pre,
  Forall (λ row, c < length row) rows →
  list_comp (λ r, getitem2 (pre ++ rows) r c) (seq (length pre) (length rows))
  = Return (column rows c).
Proof.
  induction rows as [|row rows IH]; intros pre Hall; [done|].
  apply Forall_cons in Hall as [Hrow Hall].
  destruct (lookup_lt_is_Some_2 row c Hrow) as [val Hval].
  cbn [length seq list_comp].
  rewrite (getitem2_Some _ _ _ row val)
    by (done || apply list_lookup_middle, eq_refl).
  replace (S (length pre)) with (length (pre ++ [row]))
    by (rewrite length_app; simpl; lia).
  replace (pre ++ row :: rows) with ((pre ++ [row]) ++ rows)
    by (by rewrite <- app_assoc).
  rewrite IH by done. unfold column. simpl. by rewrite Hval.
Qed.

Lemma column_levels_spec n_cols rows c :
  rectangular n_cols rows → c < n_cols →
  column_levels (length rows) rows c = Return (column rows c).
Proof.
  intros Hrect Hc. unfold column_levels.
  apply (column_levels_loop c rows []).
  eapply Forall_impl; [exact Hrect|]. simpl. intros row ->. done.
Qed.

Lemma collect_levels_loop n_levels rows cs : ∀ acc1 acc2,
  (∀ c, c ∈ cs → column_levels n_levels rows c = Return (column rows c)) →
  for_in cs (collect_levels_step n_levels rows) (acc1, acc2)
  = Return (acc1 ++ map (λ c, levels_clean_of (column rows c)) cs,
            acc2 ++ map (λ c, head (levels_clean_of (column rows c))) cs).
Proof.
  induction cs as [|c cs IH]; intros acc1 acc2 Hcol; simpl.
  - by rewrite !app_nil_r.
  - unfold collect_levels_step at 1. rewrite Hcol by left.
    rewrite bind_Return. cbn [mret result_mret fst snd].
    rewrite IH by (intros; apply Hcol; by right).
    by rewrite <- !app_assoc.
Qed.

Lemma collect_levels_spec n_cols rows :
  rectangular n_cols rows →
  collect_levels (length rows) n_cols rows
  = Return (clean_stacks n_cols rows, map head (clean_stacks n_cols rows)).
Proof.
  intros Hrect. unfold collect_levels.
  rewrite collect_levels_loop.
  - unfold clean_stacks. simpl. by rewrite map_map.
  - intros c Hc. apply (column_levels_spec n_cols); [done|].
    apply elem_of_seq in Hc. lia.
Qed.

Lemma length_clean_stacks n_cols rows : length (clean_stacks n_cols rows) = n_cols.
Proof. unfold clean_stacks. by rewrite length_map, length_seq. Qed.

Lemma omap_id_map {A B : Type} (f : A → option B) (l : list A) :
  omap id (map f l) = omap f l.
Proof.
  induction l as [|x l IH]; [done|]. csimpl. rewrite IH. by destruct (f x).
Qed.

Lemma build_new_names_spec combine stacks :
  build_new_names combine (length stacks) stacks (map head stacks)
  = Return (final_names combine stacks).
Proof.
  unfold build_new_names, final_names. rewrite omap_id_map.
  set (counts := Counter (omap head stacks)).
  rewrite (for_in_append _ _
    (λ c, final_name combine counts c (default [] (stacks !! c)))).
  - simpl. f_equal. apply list_eq. intros i.
    rewrite list_lookup_imap, list_lookup_fmap.
    destruct (decide (i < length stacks)) as [Hi|Hi].
    + rewrite lookup_seq_lt by done. simpl.
      destruct (lookup_lt_is_Some_2 stacks i Hi) as [st ->]. done.
    + rewrite lookup_seq_ge by lia.
      rewrite (lookup_ge_None_2 stacks) by lia. done.
  - intros c acc Hc. apply elem_of_seq in Hc.
    destruct (lookup_lt_is_Some_2 stacks c) as [st Hst]; [lia|].
    unfold new_name_step. rewrite (getitem_Some _ _ _ Hst), bind_Return.
    rewrite Hst. simpl. destruct st as [|base rest]; [done|].
    simpl. by destruct (decide _).
Qed.

Lemma Counter_fold (b : string) (xs : list string) : ∀ m : gmap string nat,
  default 0 (foldl (λ m b, <[b := S (default 0 (m !! b))]> m) m xs !! b)
  = default 0 (m !! b) + length (filter (λ x, x = b) xs).
Proof.
  induction xs as [|x xs IH]; intros m; simpl; [lia|].
  rewrite IH. rewrite filter_cons. destruct (decide (x = b)) as [->|Hne].
  - rewrite lookup_insert_eq. simpl. lia.
  - rewrite lookup_insert_ne by done. lia.
Qed.

Lemma Counter_count (b : string) (xs : list string) :
  default 0 (Counter xs !! b) = length (filter (λ x, x = b) xs).
Proof. unfold Counter. rewrite Counter_fold. by rewrite lookup_empty. Qed.

Lemma base_occurrences_count stacks b :
  base_occurrences stacks b = length (filter (λ x, x = b) (omap head stacks)).
Proof.
  unfold base_occurrences.
  induction stacks as [|st stacks IH]; [done|].
  rewrite filter_cons. csimpl. destruct st as [|l1 rest]; simpl.
  - done.
  - rewrite filter_cons. destruct (decide (l1 = b)) as [->|Hne].
    + rewrite decide_True by done. simpl. by rewrite IH.
    + rewrite decide_False by congruence. done.
Qed.

Lemma final_names_lookup combine stacks c base rest :
  stacks !! c = Some (base :: rest) →
  final_names combine stacks !! c
  = Some (if decide (base_occurrences stacks base = 1) then base
          else combine (base :: rest)).
Proof.
  intros Hst. unfold final_names. rewrite list_lookup_imap, Hst. simpl.
  rewrite Counter_count, <- base_occurrences_count. done.
Qed.

Lemma length_final_names combine stacks :
  length (final_names combine stacks) = length stacks.
Proof. unfold final_names. by rewrite length_imap. Qed.

Lemma header_new_names_spec kws n_cols rows :
  rectangular n_cols rows → rows ≠ [] →
  header_new_names kws (length rows) n_cols rows
  = Return (final_names (chosen_combine kws)
              (clean_stacks n_cols (filled (kws_sentinel kws) rows))).
Proof.
  intros Hrect Hne. unfold header_new_names.
  rewrite (fill_and_clean_spec _ n_cols) by done. rewrite bind_Return.
  rewrite <- (length_filled (kws_sentinel kws) rows) at 1.
  rewrite (collect_levels_spec n_cols) by (by apply rectangular_filled).
  rewrite bind_Return. cbn [fst snd].
  rewrite <- (length_clean_stacks n_cols (filled (kws_sentinel kws) rows)) at 1.
  apply build_new_names_spec.
Qed.

(** ** The renaming *)

Lemma dict_zip_fold (ks : list string) :
  ∀ (vs : list string) (m : gmap string string) (i : nat) k,
  NoDup ks → length ks = length vs → ks !! i = Some k →
  foldl (λ m kv, <[kv.1 := kv.2]> m) m (zip ks vs) !! k = vs !! i.
Proof.
  assert (Hout : ∀ (ks vs : list string) (m : gmap string string) k, k ∉ ks →
    foldl (λ m kv, <[kv.1 := kv.2]> m) m (zip ks vs) !! k = m !! k).
  { clear. intros ks. induction ks as [|k0 ks IH]; intros vs m k Hk; [done|].
    destruct vs as [|v vs]; [done|]. simpl.
    apply not_elem_of_cons in Hk as [Hne Hk].
    rewrite IH by done. by rewrite lookup_insert_ne. }
  induction ks as [|k0 ks IH]; intros vs m i k Hnd Hlen Hi; [done|].
  destruct vs as [|v vs]; [done|]. simpl in *.
  apply NoDup_cons in Hnd as [Hk0 Hnd].
  destruct i as [|i]; simpl in *.
  - injection Hi as ->. rewrite Hout by done. by rewrite lookup_insert_eq.
  - apply IH; [done|lia|done].
Qed.

Lemma renamed_dict_zip (columns new_names : list string) :
  NoDup columns → length columns = length new_names →
  map (λ col, default col (dict_zip columns new_names !! col)) columns
  = new_names.
Proof.
  intros Hnd Hlen. apply list_eq. intros i.
  rewrite list_lookup_fmap.
  destruct (columns !! i) as [k|] eqn:Hk; simpl.
  - unfold dict_zip. rewrite (dict_zip_fold _ _ _ i) by done.
    destruct (lookup_lt_is_Some_2 new_names i) as [v ->]; [|done].
    apply lookup_lt_Some in Hk. lia.
  - symmetry. apply lookup_ge_None_2. apply lookup_ge_None_1 in Hk. lia.
Qed.

(** Over distinct column names the renaming puts [new_names] in place, and
    is refused when two of them are equal. *)
Lemma rename_dict_zip (columns new_names : list string) :
  NoDup columns → length columns = length new_names →
  rename columns (dict_zip columns new_names)
  = if decide (NoDup new_names) then Return new_names
    else Raise DuplicateError.
Proof.
  intros Hnd Hlen. unfold rename. by rewrite renamed_dict_zip.
Qed.

Lemma rename_raise columns mapping e :
  rename columns mapping = Raise e → e = DuplicateError.
Proof.
  unfold rename. destruct (decide _); [discriminate|]. by intros [= <-].
Qed.

Lemma apply_multiheader_unfold columns row0 rest kws :
  length columns = length row0 →
  _apply_multiheader_from_frames columns (row0 :: rest) kws
  = new_names ← header_new_names kws (length (row0 :: rest)) (length row0)
                   (row0 :: rest);
    rename columns (dict_zip columns new_names).
Proof.
  intros Hlen. unfold _apply_multiheader_from_frames.
  rewrite decide_False by done.
  cbn [getitem lookup list_lookup]. rewrite bind_Return.
  by rewrite decide_False by (intros Hne; by apply Hne).
Qed.

Lemma apply_multiheader_spec columns row0 rest kws :
  rectangular (length row0) (row0 :: rest) →
  NoDup columns → length columns = length row0 →
  let new_names := final_names (chosen_combine kws)
                     (clean_stacks (length row0)
                        (filled (kws_sentinel kws) (row0 :: rest))) in
  _apply_multiheader_from_frames columns (row0 :: rest) kws
  = if decide (NoDup new_names) then Return new_names
    else Raise DuplicateError.
Proof.
  intros Hrect Hnd Hlen new_names. rewrite apply_multiheader_unfold by done.
  rewrite header_new_names_spec by done. rewrite bind_Return.
  apply rename_dict_zip; [done|].
  unfold new_names. rewrite length_final_names, length_clean_stacks. done.
Qed.

(** ** The flattener: forward fill, disambiguation, shape check *)

(** C2. Forward fill. On a header of [n_cols] columns with at least one
    row, steps 1 and 2 return a header of the same shape in which, for every
    row but the last, a cell that is not missing is kept, a missing cell
    ([None], the empty string or the sentinel) holds the text of the nearest
    cell on its left that is not missing, and a missing cell with no such
    cell on its left is [None]; in the last row a missing cell is [None]
    whatever stands on its left, and any other cell holds its own text.
    The row [["Party", None, "Age"]] above a last row, with the sentinel
    ["None"], becomes [["Party", "Party", "Age"]]. *)
Theorem forward_fill_upper_levels :
  (∀ sentinel n_cols rows,
     rectangular n_cols rows → rows ≠ [] →
     ∃ rows',
       fill_and_clean sentinel (length rows) n_cols rows = Return rows' ∧
       length rows' = length rows ∧
       (∀ r c row val,
          r < length rows - 1 → rows !! r = Some row → row !! c = Some val →
          ∃ row', rows' !! r = Some row' ∧
            (is_missing sentinel val = false → row' !! c = Some val) ∧
            (is_missing sentinel val = true →
               (∀ w, nearest_left sentinel row c w →
                     row' !! c = Some (PStr (py_str w))) ∧
               (none_left sentinel row c → row' !! c = Some PNone))) ∧
       (∀ c row val,
          rows !! (length rows - 1) = Some row → row !! c = Some val →
          ∃ row', rows' !! (length rows - 1) = Some row' ∧
            row' !! c = Some (if is_missing sentinel val then PNone
                              else PStr (py_str val)))) ∧
  (∀ last_row, length last_row = 3 →
     fill_and_clean (PStr "None") 2 3
       [[PStr "Party"; PNone; PStr "Age"]; last_row]
     = Return [[PStr "Party"; PStr "Party"; PStr "Age"];
               clean_last (PStr "None") last_row]).
Proof.
  split.
  - intros sentinel n_cols rows Hrect Hne.
    exists (filled sentinel rows). split; [by apply fill_and_clean_spec|].
    split; [apply length_filled|]. split.
    + intros r c row val Hr Hrow Hval.
      exists (ffill sentinel PNone row). split.
      { by rewrite filled_lookup_upper, Hrow. }
      rewrite (ffill_lookup _ _ _ _ _ Hval). split.
      * by intros ->.
      * intros ->. split.
        -- intros w Hw. by rewrite (ffill_last_nearest_left _ _ _ w).
        -- intros Hnone. by rewrite ffill_last_none_left.
    + intros c row val Hrow Hval.
      exists (clean_last sentinel row). split.
      { by rewrite filled_lookup_last, Hrow. }
      unfold clean_last. rewrite list_lookup_fmap, Hval. done.
  - intros last_row Hlen.
    change 2 with (length [[PStr "Party"; PNone; PStr "Age"]; last_row]).
    rewrite (fill_and_clean_spec _ 3).
    + reflexivity.
    + repeat constructor. done.
    + done.
Qed.

Lemma forward_fill_upper_levels_witness :
  rectangular 3 [[PStr "Party"; PNone; PStr "Age"];
                 [PStr "Code"; PStr "None"; PStr ""]] ∧
  [[PStr "Party"; PNone; PStr "Age"]; [PStr "Code"; PStr "None"; PStr ""]] ≠ [] ∧
  ∃ rows',
    fill_and_clean (PStr "None") 2 3
      [[PStr "Party"; PNone; PStr "Age"]; [PStr "Code"; PStr "None"; PStr ""]]
    = Return rows' ∧ length rows' = 2.
Proof.
  assert (Hrect : rectangular 3 [[PStr "Party"; PNone; PStr "Age"];
                                 [PStr "Code"; PStr "None"; PStr ""]])
    by (repeat constructor).
  assert (Hne : [[PStr "Party"; PNone; PStr "Age"];
                 [PStr "Code"; PStr "None"; PStr ""]] ≠ []) by discriminate.
  split; [exact Hrect|]. split; [exact Hne|].
  destruct (proj1 forward_fill_upper_levels (PStr "None") 3 _ Hrect Hne)
    as (rows' & Hrun & Hlen & _).
  exists rows'. split; [exact Hrun | exact Hlen].
Defined.

(** C1. Disambiguation. On a header of [n_cols] columns with at least one
    row, over a frame of [n_cols] distinct column names, the flattener
    computes [n_cols] names, the list [new_names] of the code; with [stacks]
    the clean-level stacks the code computes after steps 1 and 2, a column
    with the stack [base :: lower] whose base name is the base name of
    exactly one column is named [base], and one whose base name is shared by
    two columns or more is named by the combine rule applied to
    [base :: lower]. The call returns these names when they are distinct;
    when two of them are equal the renaming is refused with
    [DuplicateError]. For the header rows [["Party","Party","Age"]],
    [["Code","Value","Value"]] the names are ["Party (Code)"],
    ["Party (Value)"], ["Age"]. *)
Theorem flattener_disambiguation :
  (∀ kws columns row0 rest,
     rectangular (length row0) (row0 :: rest) →
     NoDup columns → length columns = length row0 →
     ∃ rows2 stacks new_names,
       fill_and_clean (kws_sentinel kws) (length (row0 :: rest)) (length row0)
         (row0 :: rest) = Return rows2 ∧
       collect_levels (length (row0 :: rest)) (length row0) rows2
         = Return (stacks, map head stacks) ∧
       header_new_names kws (length (row0 :: rest)) (length row0) (row0 :: rest)
         = Return new_names ∧
       length stacks = length row0 ∧ length new_names = length row0 ∧
       (∀ c base lower, stacks !! c = Some (base :: lower) →
          1 ≤ base_occurrences stacks base ∧
          (base_occurrences stacks base = 1 → new_names !! c = Some base) ∧
          (2 ≤ base_occurrences stacks base →
             new_names !! c = Some (chosen_combine kws (base :: lower)))) ∧
       (NoDup new_names →
          _apply_multiheader_from_frames columns (row0 :: rest) kws
          = Return new_names) ∧
       (¬ NoDup new_names →
          _apply_multiheader_from_frames columns (row0 :: rest) kws
          = Raise DuplicateError)) ∧
  _apply_multiheader_from_frames ["column_1"; "column_2"; "column_3"]
    party_header no_kws
  = Return ["Party (Code)"; "Party (Value)"; "Age"].
Proof.
  split; [|by vm_compute].
  intros kws columns row0 rest Hrect Hnd Hlen.
  set (header := row0 :: rest) in *.
  set (rows2 := filled (kws_sentinel kws) header).
  set (stacks := clean_stacks (length row0) rows2).
  exists rows2, stacks, (final_names (chosen_combine kws) stacks).
  assert (Hlens : length stacks = length row0) by apply length_clean_stacks.
  split; [by apply fill_and_clean_spec|]. split.
  { rewrite <- (length_filled (kws_sentinel kws) header).
    apply collect_levels_spec. by apply rectangular_filled. }
  split; [by apply header_new_names_spec|].
  split; [done|]. split; [by rewrite length_final_names|].
  pose proof (apply_multiheader_spec columns row0 rest kws Hrect Hnd Hlen)
    as Hrun. cbn zeta in Hrun. fold header rows2 stacks in Hrun.
  split; [|split].
  - intros c base lower Hst.
    rewrite (final_names_lookup _ _ _ _ _ Hst). split.
    + unfold base_occurrences.
      assert (Hin : (base :: lower) ∈ filter (λ st, head st = Some base) stacks).
      { apply list_elem_of_filter. split; [done|].
        by eapply list_elem_of_lookup_2. }
      destruct (filter _ stacks); [by apply elem_of_nil in Hin | simpl; lia].
    + split; intros Hocc.
      * by rewrite decide_True.
      * by rewrite decide_False by lia.
  - intros Hdistinct. by rewrite Hrun, decide_True.
  - intros Hdup. by rewrite Hrun, decide_False.
Qed.

Lemma flattener_disambiguation_witness :
  rectangular 3 party_header ∧
  NoDup ["column_1"; "column_2"; "column_3"] ∧
  length ["column_1"; "column_2"; "column_3"] = 3 ∧
  ∃ new_names,
    header_new_names no_kws 2 3 party_header = Return new_names ∧
    length new_names = 3.
Proof.
  assert (Hrect : rectangular 3 party_header) by (repeat constructor).
  assert (Hnd : NoDup ["column_1"; "column_2"; "column_3"])
    by (apply (bool_decide_unpack _); by vm_compute).
  split; [exact Hrect|]. split; [exact Hnd|]. split; [reflexivity|].
  destruct (proj1 flattener_disambiguation no_kws
              ["column_1"; "column_2"; "column_3"]
              [PStr "Party"; PStr "Party"; PStr "Age"]
              [[PStr "Code"; PStr "Value"; PStr "Value"]]
              Hrect Hnd eq_refl)
    as (rows2 & stacks & new_names & _ & _ & Hrun & _ & Hlen & _).
  exists new_names. split; [exact Hrun | exact Hlen].
Defined.

(** ** The exceptions of the flattener past its two checks *)

Lemma ieo_Return {A : Type} (a : A) : index_error_only (Return a).
Proof. intros e. discriminate. Qed.

Lemma ieo_mret {A : Type} (a : A) : index_error_only (mret a).
Proof. apply ieo_Return. Qed.

Lemma ieo_bind {A B : Type} (m : result A) (f : A → result B) :
  index_error_only m → (∀ a, index_error_only (f a)) →
  index_error_only (m ≫= f).
Proof.
  intros Hm Hf e. destruct m as [a|e']; simpl.
  - apply Hf.
  - intros [= <-]. by apply Hm.
Qed.

Lemma ieo_for_in {X S : Type} (xs : list X) (body : X → S → result S) s :
  (∀ x s', index_error_only (body x s')) →
  index_error_only (for_in xs body s).
Proof.
  intros Hbody. revert s. induction xs as [|x xs IH]; intros s; simpl.
  - apply ieo_Return.
  - specialize (Hbody x s). destruct (body x s) as [s'|e'].
    + apply IH.
    + intros e [= <-]. by apply Hbody.
Qed.

Lemma ieo_list_comp {X Y : Type} (f : X → result Y) (xs : list X) :
  (∀ x, index_error_only (f x)) → index_error_only (list_comp f xs).
Proof.
  intros Hf. induction xs as [|x xs IH]; simpl.
  - apply ieo_Return.
  - specialize (Hf x). destruct (f x) as [y|e'].
    + destruct (list_comp f xs) as [ys|e'']; [apply ieo_Return|].
      intros e [= <-]. by apply IH.
    + intros e [= <-]. by apply Hf.
Qed.

Lemma ieo_getitem {A : Type} (l : list A) i : index_error_only (getitem l i).
Proof.
  unfold getitem. destruct (l !! i); [apply ieo_Return|].
  intros e [= <-]. eauto.
Qed.

Lemma ieo_setitem {A : Type} (l : list A) i x : index_error_only (setitem l i x).
Proof.
  unfold setitem. destruct (decide _); [apply ieo_Return|].
  intros e [= <-]. eauto.
Qed.

Lemma ieo_if {A : Type} (b : bool) (m1 m2 : result A) :
  index_error_only m1 → index_error_only m2 →
  index_error_only (if b then m1 else m2).
Proof. by destruct b. Qed.

Create HintDb ieo.
#[local] Hint Resolve ieo_Return ieo_mret ieo_getitem ieo_setitem : ieo.
#[local] Hint Extern 2 (index_error_only (_ ≫= _)) =>
  apply ieo_bind; [|intros ?] : ieo.
#[local] Hint Extern 2 (index_error_only (for_in _ _ _)) =>
  apply ieo_for_in; intros ? ? : ieo.
#[local] Hint Extern 2 (index_error_only (list_comp _ _)) =>
  apply ieo_list_comp; intros ? : ieo.
#[local] Hint Extern 2 (index_error_only (if _ then _ else _)) =>
  apply ieo_if : ieo.

Lemma ieo_getitem2 {A : Type} (rows : list (list A)) r c :
  index_error_only (getitem2 rows r c).
Proof. unfold getitem2. auto with ieo. Qed.

Lemma ieo_setitem2 {A : Type} (rows : list (list A)) r c x :
  index_error_only (setitem2 rows r c x).
Proof. unfold setitem2. auto 6 with ieo. Qed.

#[local] Hint Resolve ieo_getitem2 ieo_setitem2 : ieo.

Lemma ieo_fill_and_clean sentinel n_levels n_cols rows :
  index_error_only (fill_and_clean sentinel n_levels n_cols rows).
Proof.
  unfold fill_and_clean, forward_fill_upper, clean_last_level.
  apply ieo_bind; [|intros rows1]; apply ieo_for_in.
  - intros r rows'. unfold ffill_row.
    apply ieo_bind; [|auto with ieo].
    apply ieo_for_in. intros c [rows'' last_val]. unfold ffill_cell.
    auto 8 with ieo.
  - intros c rows'. unfold clean_last_cell. auto 8 with ieo.
Qed.

Lemma ieo_header_new_names kws n_levels n_cols rows :
  index_error_only (header_new_names kws n_levels n_cols rows).
Proof.
  unfold header_new_names.
  apply ieo_bind; [apply ieo_fill_and_clean|]. intros rows2.
  apply ieo_bind.
  - unfold collect_levels. apply ieo_for_in. intros c st.
    unfold collect_levels_step, column_levels. auto 8 with ieo.
  - intros st. unfold build_new_names. apply ieo_for_in. intros c acc.
    unfold new_name_step. apply ieo_bind; [auto with ieo|].
    intros [|base lower]; [auto with ieo|].
    destruct (decide _); auto with ieo.
Qed.

(** C4. Shape check. With a header of no row the flattener raises
    [ValueError]; with a header whose first row does not have as many cells
    as the frame has columns it raises [ValueError]; both before any step
    of the renaming, and the frame passed in is a value the function never
    writes to. With at least one row and the same count, no [ValueError] is
    raised: what the rest of the code can raise is [IndexError], on a header
    that is not rectangular, and [DuplicateError], when the renaming is
    refused. When the header is rectangular, as the rows of a frame are, one
    name per column is computed. *)
Theorem flattener_shape_check :
  ∀ columns header kws,
    (header = [] →
       _apply_multiheader_from_frames columns header kws
       = Raise (ValueError
           "df_header must have at least one row (a header level).")) ∧
    (∀ row0 rest, header = row0 :: rest → length columns ≠ length row0 →
       _apply_multiheader_from_frames columns header kws
       = Raise (ValueError ("df_data has " +:+ pretty (length columns)
                            +:+ " columns but df_header has "
                            +:+ pretty (length row0) +:+ "."))) ∧
    (∀ row0 rest, header = row0 :: rest → length columns = length row0 →
       (∀ msg, _apply_multiheader_from_frames columns header kws
               ≠ Raise (ValueError msg)) ∧
       (∀ e, _apply_multiheader_from_frames columns header kws = Raise e →
             (∃ msg, e = IndexError msg) ∨ e = DuplicateError) ∧
       (rectangular (length row0) header →
          ∃ new_names,
            header_new_names kws (length header) (length row0) header
            = Return new_names ∧
            length new_names = length columns)).
Proof.
  intros columns header kws. split; [|split].
  - intros ->. reflexivity.
  - intros row0 rest -> Hne. unfold _apply_multiheader_from_frames.
    rewrite decide_False by done.
    cbn [getitem lookup list_lookup]. rewrite bind_Return.
    by rewrite decide_True.
  - intros row0 rest -> Hlen.
    assert (Hexn : ∀ e,
      _apply_multiheader_from_frames columns (row0 :: rest) kws = Raise e →
      (∃ msg, e = IndexError msg) ∨ e = DuplicateError).
    { intros e. rewrite apply_multiheader_unfold by done.
      pose proof (ieo_header_new_names kws (length (row0 :: rest))
                    (length row0) (row0 :: rest)) as Hieo.
      destruct (header_new_names kws _ _ _) as [names|e'].
      - rewrite bind_Return. intros Hraise. right.
        by eapply rename_raise.
      - intros [= <-]. left. by apply Hieo. }
    split; [|split].
    + intros msg Hraise.
      destruct (Hexn _ Hraise) as [[msg' ?]|?]; discriminate.
    + exact Hexn.
    + intros Hrect. eexists. split; [by apply header_new_names_spec|].
      by rewrite length_final_names, length_clean_stacks.
Qed.

Lemma flattener_shape_check_witness :
  (∃ msg, _apply_multiheader_from_frames ["column_1"; "column_2"] [] no_kws
          = Raise (ValueError msg)) ∧
  (∃ msg, _apply_multiheader_from_frames ["column_1"; "column_2"]
            [[PStr "A"; PStr "B"; PStr "C"]] no_kws
          = Raise (ValueError msg)) ∧
  (∃ new_names, header_new_names no_kws 1 2 [[PStr "A"; PStr "B"]]
                = Return new_names ∧ length new_names = 2).
Proof.
  split; [|split].
  - eexists.
    exact (proj1 (flattener_shape_check ["column_1"; "column_2"] [] no_kws)
             eq_refl).
  - eexists.
    refine (proj1 (proj2 (flattener_shape_check ["column_1"; "column_2"]
                            [[PStr "A"; PStr "B"; PStr "C"]] no_kws))
              _ _ eq_refl _).
    simpl. lia.
  - refine (proj2 (proj2 (proj2 (proj2 (flattener_shape_check
              ["column_1"; "column_2"] [[PStr "A"; PStr "B"]] no_kws))
              _ _ eq_refl eq_refl)) _).
    repeat constructor.
Defined.

(** ** The default combine rule on clean levels *)

Lemma rstrip_idem s : rstrip (rstrip s) = rstrip s.
Proof.
  induction s as [|a s IH]; [done|]. simpl.
  destruct (rstrip s) as [|b r] eqn:Hr.
  - destruct (py_isspace a) eqn:Ha; [done|]. simpl. by rewrite Ha.
  - simpl. simpl in IH. destruct (rstrip r) as [|b' r'] eqn:Hr'.
    + destruct (py_isspace b) eqn:Hb; [discriminate|]. by rewrite IH.
    + by rewrite IH.
Qed.

Lemma lstrip_rstrip_fixed a s :
  py_isspace a = false → lstrip (rstrip (String a s)) = rstrip (String a s).
Proof.
  intros Ha. cbn [rstrip]. rewrite Ha.
  destruct (rstrip s); cbn [lstrip]; by rewrite Ha.
Qed.

Lemma lstrip_head s :
  lstrip s = "" ∨ ∃ a r, lstrip s = String a r ∧ py_isspace a = false.
Proof.
  induction s as [|a s IH]; [by left|]. simpl.
  destruct (py_isspace a) eqn:Ha; [done|]. right. eauto.
Qed.

Lemma strip_idem s : strip (strip s) = strip s.
Proof.
  unfold strip. destruct (lstrip_head s) as [->|(a & r & -> & Ha)]; [done|].
  rewrite lstrip_rstrip_fixed by done. apply rstrip_idem.
Qed.

Lemma lstrip_blank s : lstrip s = "" ↔ blank s = true.
Proof.
  unfold blank. induction s as [|a s IH]; [done|]. simpl.
  destruct (py_isspace a); [done|]. split; discriminate.
Qed.

Lemma rstrip_blank s : rstrip s = "" ↔ blank s = true.
Proof.
  unfold blank. induction s as [|a s IH]; [done|]. simpl.
  destruct (rstrip s) as [|b r].
  - rewrite (proj1 IH eq_refl), andb_true_r.
    destruct (py_isspace a); [done|]. split; discriminate.
  - destruct (forallb py_isspace (list_ascii_of_string s)).
    + by pose proof (proj2 IH eq_refl).
    + rewrite andb_false_r. split; discriminate.
Qed.

(** Stripping leaves nothing exactly of the blank strings. *)
Lemma strip_blank s : strip s = "" ↔ blank s = true.
Proof.
  unfold strip. rewrite rstrip_blank, <- (lstrip_blank s).
  destruct (lstrip_head s) as [Hl|(a & r & Hl & Ha)]; rewrite Hl; [done|].
  unfold blank. simpl. rewrite Ha. split; discriminate.
Qed.

Lemma str_truthy_strip s : str_truthy (strip s) = negb (blank s).
Proof.
  unfold str_truthy, str_eqb. destruct (blank s) eqn:Hb.
  - apply strip_blank in Hb. by rewrite Hb.
  - rewrite bool_decide_eq_false_2; [done|].
    intros Hs%strip_blank. congruence.
Qed.

Lemma clean_level_clean x l : clean_level x = Some l → clean_string l.
Proof.
  unfold clean_level, clean_string, str_eqb. intros H.
  destruct x; [done| |]; simpl in H; case_bool_decide; simplify_eq;
    by rewrite strip_idem.
Qed.

Lemma levels_clean_of_clean levels : Forall clean_string (levels_clean_of levels).
Proof.
  apply Forall_forall. intros l Hl. unfold levels_clean_of in Hl.
  apply list_elem_of_omap in Hl as (x & _ & Hx). by eapply clean_level_clean.
Qed.

Lemma combine_cleaned_clean levels :
  Forall clean_string levels →
  combine_cleaned (PStr <$> levels) = filter (λ l, l ≠ "None") levels.
Proof.
  unfold combine_cleaned. induction 1 as [|l levels [Hstrip Hne] _ IH]; [done|].
  rewrite fmap_cons, !filter_cons.
  destruct (decide (l ≠ "None")) as [Hn|Hn].
  - rewrite decide_True.
    + simpl. rewrite Hstrip. f_equal. apply IH.
    + unfold not_in_blank_tuple. rewrite !bool_decide_eq_false_2; [done|..];
        congruence.
  - rewrite decide_False; [apply IH|].
    apply dec_stable in Hn. subst l. by vm_compute.
Qed.

Lemma filter_truthy_clean levels :
  Forall clean_string levels →
  filter (λ lvl, str_truthy lvl = true) levels = levels.
Proof.
  induction 1 as [|l levels [_ Hne] _ IH]; [done|].
  rewrite filter_cons, decide_True, IH; [done|].
  unfold str_truthy, str_eqb. by rewrite bool_decide_eq_false_2.
Qed.

Lemma combine_with_parens_clean levels sep :
  Forall clean_string levels →
  _combine_with_parens (PStr <$> levels) sep
  = paren_name sep (filter (λ l, l ≠ "None") levels).
Proof.
  intros Hclean. unfold _combine_with_parens.
  rewrite combine_cleaned_clean by done.
  assert (Hkept : Forall clean_string (filter (λ l, l ≠ "None") levels)).
  { apply Forall_forall. intros l Hl. apply list_elem_of_filter in Hl as [_ Hl].
    by eapply (proj1 (Forall_forall _ _) Hclean). }
  destruct (filter (λ l, l ≠ "None") levels) as [|base rest]; [done|].
  apply Forall_cons in Hkept as [_ Hrest].
  rewrite filter_truthy_clean by done. by destruct rest.
Qed.

(** With no rule and no separator given, clean levels none of which is the
    text ["None"] are combined with the separator ["; "]. *)
Lemma default_combine_paren_name levels :
  Forall clean_string levels → "None" ∉ levels →
  chosen_combine no_kws levels = paren_name "; " levels.
Proof.
  intros Hclean Hnone. unfold chosen_combine. cbn [header_combine_rule no_kws].
  rewrite combine_with_parens_clean by done.
  change (kws_sep no_kws) with "; ". f_equal.
  apply filter_all. apply Forall_forall. intros l Hl ->. done.
Qed.

(** C3. The default combine rule, reached with no [header_combine_rule] and
    no [combine_parenthesis_sep]. A single clean level stands alone and two
    levels give ["Party (Value)"], but the levels after the first are joined
    by ["; "], the default of the flattener, and not by [", "]: three levels
    [A], [B], [C] give ["A (B; C)"]. *)
Theorem default_combine_rule_separator :
  chosen_combine no_kws ["Party"] = "Party" ∧
  chosen_combine no_kws ["Party"; "Value"] = "Party (Value)" ∧
  chosen_combine no_kws ["A"; "B"; "C"] = "A (B; C)" ∧
  chosen_combine no_kws ["A"; "B"; "C"] ≠ "A (B, C)" ∧
  _apply_multiheader_from_frames ["column_1"; "column_2"]
    [[PStr "A"; PStr "A"]; [PStr "B"; PStr "B"]; [PStr "C"; PStr "D"]] no_kws
  = Return ["A (B; C)"; "A (B; D)"].
Proof. repeat split; by vm_compute. Qed.

(** C10. The default combine rule does not read the sentinel. Under any
    sentinel [s] other than ["None"], and for the clean levels of any
    column, the rule drops every level that is the text ["None"] and keeps
    every other level, a level equal to [s] among them, in order: the name
    is the first kept level followed by the other kept levels between
    parentheses. *)
Theorem default_combine_fixed_blank_set :
  ∀ kws s (cells : list pyval),
    header_combine_rule kws = None →
    multi_col_sentinel kws = Some (PStr s) → s ≠ "None" →
    let levels := levels_clean_of cells in
    let kept := filter (λ l, l ≠ "None") levels in
    combine_cleaned (PStr <$> levels) = kept ∧
    chosen_combine kws levels = paren_name (kws_sep kws) kept ∧
    ("None" ∉ kept) ∧
    (s ∈ levels → s ∈ kept).
Proof.
  intros kws s cells Hrule Hsent Hs levels kept.
  pose proof (levels_clean_of_clean cells) as Hclean. fold levels in Hclean.
  split; [by apply combine_cleaned_clean|]. split.
  - unfold chosen_combine. rewrite Hrule.
    by apply combine_with_parens_clean.
  - split.
    + intros Hin. by apply list_elem_of_filter in Hin as [Hne _].
    + intros Hin. by apply list_elem_of_filter.
Qed.

Lemma default_combine_fixed_blank_set_witness :
  let kws := {| header_combine_rule := None;
                combine_parenthesis_sep := None;
                multi_col_sentinel := Some (PStr "-") |} in
  header_combine_rule kws = None ∧
  multi_col_sentinel kws = Some (PStr "-") ∧
  "-" ≠ "None" ∧
  levels_clean_of [PStr "G"; PStr "None"; PStr " - "] = ["G"; "None"; "-"] ∧
  chosen_combine kws ["G"; "None"; "-"] = "G (-)".
Proof.
  intros kws.
  assert (Hne : "-" ≠ "None") by discriminate.
  split; [reflexivity|]. split; [reflexivity|]. split; [exact Hne|].
  split; [reflexivity|].
  exact (proj1 (proj2 (default_combine_fixed_blank_set kws "-"
           [PStr "G"; PStr "None"; PStr " - "] eq_refl eq_refl Hne))).
Defined.

(** The same through the whole flattener, with the sentinel ["-"]: the
    level ["None"] of the first column is dropped, the level ["-"] of the
    second, read from the cell [" - "], is kept. *)
Example custom_sentinel_header :
  _apply_multiheader_from_frames ["column_1"; "column_2"]
    [[PStr "G"; PStr "-"]; [PStr "None"; PStr " - "]]
    {| header_combine_rule := None; combine_parenthesis_sep := None;
       multi_col_sentinel := Some (PStr "-") |}
  = Return ["G"; "G (-)"].
Proof. by vm_compute. Qed.

(** ** The label model *)

Lemma label_fold kept var (l : list string) : ∀ m : gmap string string,
  foldl (label_step kept) m l !! var
  = if decide (var ∈ l)
    then Some (match kept !! var with None => var | Some lbl => lbl end)
    else m !! var.
Proof.
  induction l as [|x l IH]; intros m; simpl.
  - destruct (decide (var ∈ [])) as [Hin|_]; [|done].
    by apply elem_of_nil in Hin.
  - rewrite IH. destruct (decide (var ∈ l)) as [Hin|Hnin].
    + destruct (decide (var ∈ x :: l)) as [_|Hn]; [done|].
      exfalso. apply Hn. by right.
    + unfold label_step. destruct (decide (x = var)) as [->|Hne].
      * destruct (decide (var ∈ var :: l)) as [_|Hn].
        -- by rewrite lookup_insert_eq.
        -- exfalso. apply Hn. by left.
      * destruct (decide (var ∈ x :: l)) as [[?|?]%elem_of_cons|_];
          [congruence|done|].
        by rewrite lookup_insert_ne.
Qed.

(** C5. Label model totality. After the construction, every name of
    [original] has a label: the raw label when it is a string that is not
    blank, that is not empty once its white space is trimmed, and the name
    itself otherwise. Every dictionary kept in [values] is not empty, and a
    variable has none exactly when its raw entry is no dictionary or an
    empty one. *)
Theorem label_model_totality :
  ∀ original0 variables0 values0,
    let labels := __post_init__ original0 variables0 values0 in
    (∀ var, var ∈ original0 →
       variables labels !! var
       = Some (match variables0 !! var with
               | Some (PStr s) => if blank s then var else s
               | _ => var
               end)) ∧
    (∀ var d, values labels !! var = Some d → d ≠ ∅) ∧
    (∀ var, values labels !! var = None ↔
            ∀ d, values0 !! var = Some (Some d) → d = ∅).
Proof.
  intros original0 variables0 values0 labels. split; [|split].
  - intros var Hin. unfold labels, __post_init__. cbn [variables].
    rewrite label_fold, decide_True by done. f_equal.
    rewrite lookup_omap. destruct (variables0 !! var) as [[|s|r]|]; try done.
    simpl. rewrite str_truthy_strip. by destruct (blank s).
  - intros var d Hd. unfold labels, __post_init__ in Hd. cbn [values] in Hd.
    rewrite lookup_omap in Hd.
    destruct (values0 !! var) as [[m|]|]; try done. simpl in Hd.
    destruct (decide (0 < size m)) as [Hsz|]; [|done]. injection Hd as <-.
    apply map_size_non_empty_iff. lia.
  - intros var. unfold labels, __post_init__. cbn [values].
    rewrite lookup_omap. destruct (values0 !! var) as [[m|]|]; simpl.
    + destruct (decide (0 < size m)) as [Hsz|Hsz].
      * split; [done|]. intros Hall. specialize (Hall m eq_refl). subst m.
        rewrite map_size_empty in Hsz. lia.
      * split; [|done]. intros _ d [= <-]. apply map_size_empty_inv. lia.
    + split; [|done]. by intros _ d.
    + split; [|done]. by intros _ d.
Qed.

(** A label that is kept, a label of one no-break space, which is blank,
    and a name with no raw label. *)
Lemma label_model_totality_witness :
  let raw : gmap string pyval :=
    {["age" := PStr "Age in years"; "sex" := PStr (String "160" "")]} in
  let labels := __post_init__ ["age"; "sex"; "id"] raw ∅ in
  ("age" ∈ ["age"; "sex"; "id"]) ∧ ("sex" ∈ ["age"; "sex"; "id"]) ∧
  ("id" ∈ ["age"; "sex"; "id"]) ∧
  variables labels !! "age" = Some "Age in years" ∧
  variables labels !! "sex" = Some "sex" ∧
  variables labels !! "id" = Some "id".
Proof.
  intros raw labels.
  assert (Hage : "age" ∈ ["age"; "sex"; "id"]) 
    by (apply (bool_decide_unpack _); by vm_compute).
  assert (Hsex : "sex" ∈ ["age"; "sex"; "id"]) 
    by (apply (bool_decide_unpack _); by vm_compute).
  assert (Hid : "id" ∈ ["age"; "sex"; "id"]) 
    by (apply (bool_decide_unpack _); by vm_compute).
  split; [exact Hage|]. split; [exact Hsex|]. split; [exact Hid|].
  split; [|split].
  - exact (proj1 (label_model_totality ["age"; "sex"; "id"] raw ∅) "age" Hage).
  - exact (proj1 (label_model_totality ["age"; "sex"; "id"] raw ∅) "sex" Hsex).
  - exact (proj1 (label_model_totality ["age"; "sex"; "id"] raw ∅) "id" Hid).
Defined.

(** ** The SPSS reader *)

Lemma length_rows_in_window (a b : Z) :
  (1 ≤ a ≤ b)%Z → Z.of_nat (length (rows_in_window a b)) = (b - a + 1)%Z.
Proof.
  intros Hab. unfold rows_in_window.
  assert (Hsplit : seqZ 1 b = seqZ 1 (a - 1) ++ seqZ a (b - a + 1)).
  { replace b with ((a - 1) + (b - a + 1))%Z at 1 by lia.
    rewrite seqZ_app by lia. do 2 f_equal. lia. }
  rewrite Hsplit, filter_app.
  rewrite filter_none, filter_all.
  - simpl. rewrite length_seqZ. lia.
  - apply Forall_forall. intros i Hi. apply elem_of_seqZ in Hi. lia.
  - apply Forall_forall. intros i Hi. apply elem_of_seqZ in Hi. lia.
Qed.


(** C9. Row range of the SPSS reader. With [rows_range = [a, b]] and
    [1 ≤ a ≤ b] the parser is called with [row_offset = a - 1], which is
    not negative, and [row_limit = b - a + 1], the number of rows from [a]
    to [b]; with no [rows_range] it is called with [row_offset = 0] and
    [row_limit = 0]. *)
Theorem read_sav_row_range :
  ∀ kws,
    (∀ a b, (1 ≤ a ≤ b)%Z → kw_rows_range kws = Some [a; b] →
       read_sav kws
       = Return (CallReadSav (kw_cols kws) (a - 1)%Z (b - a + 1)%Z) ∧
       (0 ≤ a - 1)%Z ∧
       (b - a + 1)%Z = Z.of_nat (length (rows_in_window a b))) ∧
    (kw_rows_range kws = None →
       read_sav kws = Return (CallReadSav (kw_cols kws) 0%Z 0%Z)).
Proof.
  intros kws. split.
  - intros a b Hab Hrange. split; [|split].
    + unfold read_sav. rewrite Hrange. cbn. do 2 f_equal. lia.
    + lia.
    + by rewrite length_rows_in_window.
  - intros Hrange. unfold read_sav. by rewrite Hrange.
Qed.

Lemma read_sav_row_range_witness :
  let kws := {| kw_names := ["fn"; "rows_range"];
                kw_fn := LocStr "/tmp/survey.sav"; kw_url := None;
                kw_credentials := None; kw_big_data := false;
                kw_cols := None; kw_rows_range := Some [3; 7]%Z |} in
  (1 ≤ 3 ≤ 7)%Z ∧ kw_rows_range kws = Some [3; 7]%Z ∧
  read_sav kws = Return (CallReadSav None 2%Z 5%Z).
Proof.
  intros kws.
  assert (Hab : (1 ≤ 3 ≤ 7)%Z) by lia.
  split; [exact Hab|]. split; [reflexivity|].
  exact (proj1 (proj1 (read_sav_row_range kws) 3%Z 7%Z Hab eq_refl)).
Defined.

(** The same through the dispatcher, for a file of the SPSS family. *)
Example read_data_sav_window :
  read_data example_env
    {| kw_names := ["fn"; "cols"; "rows_range"];
       kw_fn := LocStr "https://example.org/survey.sav"; kw_url := None;
       kw_credentials := None; kw_big_data := false;
       kw_cols := Some ["age"; "sex"]; kw_rows_range := Some [3; 7]%Z |}
  = Return (Some (CallReadSav (Some ["age"; "sex"]) 2%Z 5%Z)).
Proof. by vm_compute. Qed.

(** ** The dispatcher *)

Lemma read_dask_raises n kwnames :
  n ≠ 0 → ∃ msg, read_dask n kwnames = Raise (TypeError msg).
Proof.
  intros Hn. unfold read_dask. destruct kwnames as [|name rest]; [|eauto].
  rewrite decide_False by done. eauto.
Qed.

(** C7. The [big_data] path. With [big_data] set, [read_data] never
    returns, neither [None] nor a table: past the checks of the location,
    the call [read_dask(fn, **kws)], whose [__new__] takes no argument,
    raises [TypeError]. *)
Theorem read_data_big_data_raises :
  ∀ E kws,
    kw_big_data kws = true →
    (∀ v, read_data E kws ≠ Return v) ∧
    (∀ fn, _expand_to_full_path_or_url E (kw_fn kws) = Return (Some fn) →
           str_truthy fn = true →
           String.prefix "http" fn = true ∨ isfile E fn = true →
           ∃ msg, read_data E kws = Raise (TypeError msg)).
Proof.
  intros E kws Hbig.
  destruct (read_dask_raises 2 (kw_names kws)) as [msg Hdask]; [done|].
  split.
  - intros v. unfold read_data. rewrite Hbig, Hdask.
    destruct (_expand_to_full_path_or_url E (kw_fn kws)) as [fn|e]; [|done].
    rewrite bind_Return.
    destruct (negb (opt_truthy fn || opt_truthy (kw_url kws))); [done|].
    destruct (search_http fn) as [is_http|e]; [|done].
    rewrite bind_Return.
    destruct (negb is_http && negb (isfile E (default "" fn))); done.
  - intros fn Hfn Htruthy Hvalid. exists msg. unfold read_data.
    rewrite Hfn, bind_Return, Hbig, Hdask. cbn [opt_truthy search_http default].
    rewrite Htruthy. cbn [orb negb]. rewrite bind_Return.
    assert (Hok : negb (String.prefix "http" fn) && negb (isfile E fn) = false).
    { destruct Hvalid as [-> | ->]; [done|]. apply andb_false_r. }
    unfold id. rewrite Hok. done.
Qed.

(** The call [read_data(fn="/tmp/x.csv", big_data=True)] on an existing
    file. *)
Lemma read_data_big_data_raises_witness :
  let kws := {| kw_names := ["fn"; "big_data"];
                kw_fn := LocStr "/tmp/x.csv"; kw_url := None;
                kw_credentials := None; kw_big_data := true;
                kw_cols := None; kw_rows_range := None |} in
  kw_big_data kws = true ∧
  _expand_to_full_path_or_url example_env (kw_fn kws)
  = Return (Some "/tmp/x.csv") ∧
  isfile example_env "/tmp/x.csv" = true ∧
  ∃ msg, read_data example_env kws = Raise (TypeError msg).
Proof.
  intros kws.
  split; [reflexivity|]. split; [reflexivity|]. split; [reflexivity|].
  exact (proj2 (read_data_big_data_raises example_env kws eq_refl)
           "/tmp/x.csv" eq_refl eq_refl (or_intror eq_refl)).
Defined.

(** The message of that call names the first keyword argument. *)
Example read_data_big_data_message :
  read_data example_env
    {| kw_names := ["fn"; "big_data"];
       kw_fn := LocStr "/tmp/x.csv"; kw_url := None;
       kw_credentials := None; kw_big_data := true;
       kw_cols := None; kw_rows_range := None |}
  = Raise (TypeError
      "read_dask.__new__() got an unexpected keyword argument 'fn'").
Proof. by vm_compute. Qed.

(** C6. The arguments of [read_data]. With neither [fn] nor [url] the call
    raises [AssertionError]. With a [url] and no [fn] it does not reach
    the readers: the search of ["^http"] in [fn], which is [None], raises
    [TypeError]. [read_gspread] itself returns when both [url] and
    [credentials] are given and raises [AssertionError] otherwise. *)
Theorem read_data_url_without_fn :
  ∀ E kws,
    (kw_fn kws = LocNone → opt_truthy (kw_url kws) = false →
       read_data E kws
       = Raise (AssertionError "Either fn or url must be provided.")) ∧
    (kw_fn kws = LocNone → opt_truthy (kw_url kws) = true →
       read_data E kws
       = Raise (TypeError
           "expected string or bytes-like object, got 'NoneType'")) ∧
    (opt_truthy (kw_url kws) = true → opt_truthy (kw_credentials kws) = true →
       read_gspread kws
       = Return (CallGspread (default "" (kw_url kws))
                             (default "" (kw_credentials kws)))) ∧
    (opt_truthy (kw_url kws) = false ∨ opt_truthy (kw_credentials kws) = false →
       ∃ msg, read_gspread kws = Raise (AssertionError msg)).
Proof.
  intros E kws. repeat split.
  - intros Hfn Hurl. unfold read_data. rewrite Hfn. cbn. by rewrite Hurl.
  - intros Hfn Hurl. unfold read_data. rewrite Hfn. cbn. by rewrite Hurl.
  - intros Hurl Hcred. unfold read_gspread. by rewrite Hurl, Hcred.
  - intros Hmiss. unfold read_gspread.
    destruct (opt_truthy (kw_credentials kws)); simpl; [|eauto].
    destruct (opt_truthy (kw_url kws)); simpl; [|eauto].
    by destruct Hmiss.
Qed.


Lemma read_data_url_without_fn_witness :
  let kws := {| kw_names := ["url"; "credentials"];
                kw_fn := LocNone;
                kw_url := Some "https://docs.google.com/spreadsheets/d/abc";
                kw_credentials := Some "credentials.json";
                kw_big_data := false;
                kw_cols := None; kw_rows_range := None |} in
  kw_fn kws = LocNone ∧ opt_truthy (kw_url kws) = true ∧
  opt_truthy (kw_credentials kws) = true ∧
  read_data example_env kws
  = Raise (TypeError "expected string or bytes-like object, got 'NoneType'").
Proof.
  intros kws.
  split; [reflexivity|]. split; [reflexivity|]. split; [reflexivity|].
  exact (proj1 (proj2 (read_data_url_without_fn example_env kws))
           eq_refl eq_refl).
Defined.

Lemma urlparse_raise E s e : urlparse E s = Raise e → ∃ msg, e = ValueError msg.
Proof.
  unfold urlparse.
  destruct (split_scheme _) as [sch url2]. destruct (split_netloc _) as [loc url3].
  destruct (xorb _ _); [intros [= <-]; eauto|].
  destruct (_ && _); [intros [= <-]; eauto|]. discriminate.
Qed.

(** The normaliser raises what the parsing of a URL raises, on a string
    with ["://"], or what the resolution of a path raises. *)
Lemma expand_raise E p e :
  _expand_to_full_path_or_url E p = Raise e →
  (∃ s, p = LocStr s ∧ str_contains "://" s = true ∧ urlparse E s = Raise e) ∨
  (∃ t, resolve_path E t = Raise e).
Proof.
  assert (Hres : ∀ t, (full ← resolve_path E t; mret (Some full)) = Raise e →
                      resolve_path E t = Raise e).
  { intros t. destruct (resolve_path E t); [discriminate|]. by intros [= <-]. }
  destruct p as [|s|t]; simpl; [discriminate| |eauto].
  destruct (negb (str_truthy s)); [discriminate|].
  destruct (str_contains "://" s) eqn:Hin; [|eauto].
  destruct (urlparse E s) as [parsed|e'] eqn:Hparse.
  - rewrite bind_Return.
    destruct (str_eqb _ _); [eauto|].
    destruct (str_truthy _); [discriminate|eauto].
  - intros [= <-]. left. eauto.
Qed.

(** The first assertion of [read_data] fails exactly when neither the
    normalised [fn] nor [url] is given, the resolution of a path raising no
    [AssertionError] of its own. *)
Lemma read_data_argument_error E kws :
  (∀ t msg, resolve_path E t ≠ Raise (AssertionError msg)) →
  read_data E kws = Raise (AssertionError "Either fn or url must be provided.")
  ↔ ∃ fn, _expand_to_full_path_or_url E (kw_fn kws) = Return fn ∧
          opt_truthy fn = false ∧ opt_truthy (kw_url kws) = false.
Proof.
  intros Hresolve. split.
  - unfold read_data.
    destruct (_expand_to_full_path_or_url E (kw_fn kws)) as [fn|e] eqn:Hfn.
    2:{ intros [= ->].
        destruct (expand_raise _ _ _ Hfn) as [(s & _ & _ & Hp)|[t Ht]].
        - by destruct (urlparse_raise _ _ _ Hp).
        - by destruct (Hresolve _ _ Ht). }
    rewrite bind_Return. intros Hraise. exists fn. split; [done|].
    destruct (opt_truthy fn) eqn:Hf; destruct (opt_truthy (kw_url kws)) eqn:Hu;
      try done; exfalso; cbn [orb negb] in Hraise;
      (destruct (search_http fn) as [is_http|e] eqn:Hs;
       [|destruct fn; simpl in Hs; simplify_eq]);
      rewrite bind_Return in Hraise;
      (destruct (negb is_http && negb (isfile E (default "" fn)));
       [discriminate|]);
      destruct (kw_big_data kws); cbn [negb] in Hraise;
      try (destruct (read_dask_raises 2 (kw_names kws)) as [msg Hd]; [done|];
           rewrite Hd in Hraise);
      try discriminate;
      repeat (match type of Hraise with
              | context [if ?b then _ else _] => destruct b
              end; try discriminate).
    all: unfold read_sav, read_gspread in Hraise;
      repeat (match type of Hraise with
              | context [match ?b with _ => _ end] => destruct b eqn:?
              end; cbn in Hraise; try discriminate).
    all: match goal with l : list Z |- _ => destruct l as [|? [|? ?]] end;
      cbn in Hraise; discriminate.
  - intros (fn & Hfn & Hf & Hu). unfold read_data.
    by rewrite Hfn, bind_Return, Hf, Hu.
Qed.

(** ** The path normaliser *)

Lemma str_remove_none (f : ascii → bool) s :
  Forall (λ a, f a = false) (list_ascii_of_string s) → str_remove f s = s.
Proof.
  induction s as [|a s IH]; [done|]. simpl. intros [Ha Hs]%Forall_cons.
  rewrite Ha. f_equal. by apply IH.
Qed.

Lemma str_cut_None c s :
  Forall (λ a, Ascii.eqb a c = false) (list_ascii_of_string s) →
  str_cut c s = None.
Proof.
  induction s as [|a s IH]; [done|]. simpl. intros [Ha Hs]%Forall_cons.
  rewrite Ha. by rewrite IH.
Qed.

Lemma ascii_in_false c s :
  Forall (λ a, Ascii.eqb a c = false) (list_ascii_of_string s) →
  ascii_in c s = false.
Proof.
  unfold ascii_in. induction 1 as [|a l Ha _ IH]; [done|]. simpl.
  rewrite Ascii.eqb_sym, Ha. done.
Qed.

Lemma url_plain_chars p :
  url_plain p →
  Forall (λ a, is_unsafe_url_byte a = false) (list_ascii_of_string p) ∧
  Forall (λ a, Ascii.eqb a "#" = false) (list_ascii_of_string p) ∧
  Forall (λ a, Ascii.eqb a "?" = false) (list_ascii_of_string p) ∧
  Forall (λ a, Ascii.eqb a "%" = false) (list_ascii_of_string p).
Proof.
  unfold url_plain, is_unsafe_url_byte, ascii_in. intros Hp.
  repeat split; eapply Forall_impl; try exact Hp; simpl; intros a Ha;
    repeat (apply orb_false_elim in Ha as [? Ha]); try done.
  by repeat (apply orb_false_intro; [done|]).
Qed.

Lemma split_scheme_absolute rest :
  split_scheme (String "/" rest) = ("", String "/" rest).
Proof.
  unfold split_scheme. simpl. by destruct (str_cut ":" rest) as [[before after]|].
Qed.

Lemma split_netloc_single_root p :
  is_absolute p → single_root p → split_netloc p = ("", p).
Proof.
  intros [rest ->] Hroot. unfold split_netloc.
  destruct rest as [|a rest]; [done|].
  destruct (Ascii.eqb_spec a "/") as [->|Hne]; [by destruct (Hroot rest)|].
  destruct a as [[] [] [] [] [] [] [] []]; try done.
Qed.

Lemma urlparse_file_url E p :
  is_absolute p → url_plain p →
  urlparse E ("file://" +:+ p)
  = Return {| scheme := "file"; netloc := ""; path := p |}.
Proof.
  intros [rest ->] Hplain.
  destruct (url_plain_chars _ Hplain) as (Hsafe & Hfrag & Hquery & _).
  unfold urlparse.
  change ("file://" +:+ String "/" rest)
    with (String "f" (String "i" (String "l" (String "e" (String ":"
            (String "/" (String "/" (String "/" rest)))))))).
  cbn [str_lstrip]. change (is_c0_or_space "f") with false. cbn iota.
  assert (Hrm : str_remove is_unsafe_url_byte
                  (String "f" (String "i" (String "l" (String "e" (String ":"
                     (String "/" (String "/" (String "/" rest))))))))
                = String "f" (String "i" (String "l" (String "e" (String ":"
                     (String "/" (String "/" (String "/" rest)))))))).
  { apply str_remove_none. simpl. repeat (apply Forall_cons; split; [done|]).
    simpl in Hsafe. by apply Forall_cons in Hsafe as [_ ?]. }
  rewrite Hrm.
  change (split_scheme _) with ("file", String "/" (String "/" (String "/" rest))).
  cbn iota. change (split_netloc _) with ("", String "/" rest). cbn iota.
  change (xorb _ _) with false. cbn iota.
  rewrite (str_cut_None "#") by done.
  rewrite (str_cut_None "?") by done. done.
Qed.

Lemma urlparse_absolute_path E p :
  is_absolute p → single_root p → url_plain p →
  ∃ parsed, urlparse E p = Return parsed ∧ scheme parsed = "".
Proof.
  intros Habs Hroot Hplain.
  destruct (url_plain_chars _ Hplain) as (Hsafe & Hfrag & Hquery & _).
  unfold urlparse.
  assert (Hstrip : str_lstrip is_c0_or_space p = p).
  { destruct Habs as [rest ->]. done. }
  rewrite Hstrip, str_remove_none by done.
  destruct Habs as [rest ->]. rewrite split_scheme_absolute.
  rewrite split_netloc_single_root by (done || by exists rest).
  cbn. eauto.
Qed.

Lemma str_contains_nonempty sub s :
  sub ≠ "" → str_contains sub s = true → str_truthy s = true.
Proof. destruct s; [|done]. destruct sub; [done|]. done. Qed.

Lemma urlparse_absolute_scheme E p parsed :
  is_absolute p → url_plain p →
  urlparse E p = Return parsed → scheme parsed = "".
Proof.
  intros Habs Hplain.
  destruct (url_plain_chars _ Hplain) as (Hsafe & _).
  unfold urlparse.
  assert (Hstrip : str_lstrip is_c0_or_space p = p).
  { destruct Habs as [rest ->]. done. }
  rewrite Hstrip, str_remove_none by done.
  destruct Habs as [rest ->]. rewrite split_scheme_absolute.
  destruct (split_netloc _) as [loc url3].
  destruct (xorb _ _); [discriminate|].
  destruct (_ && _); [discriminate|]. by intros [= <-].
Qed.

(** C8. The path normaliser. For an absolute path [p] that holds no ["#"],
    ["?"], ["%"], tab or line break, the URL ["file://" + p] normalises to
    the resolved [p]; whenever [p] itself normalises to a string, the URL
    normalises to the same string; and the two calls have the same outcome
    when [p] does not start with two slashes or holds no ["://"]. A string
    that holds ["://"] and parses with a scheme other than ["file"] is
    returned unchanged, [None] and the empty string are returned unchanged,
    and a string that holds ["://"] and parses with no scheme is resolved
    as a path. *)
Theorem path_normalizer_cases :
  ∀ E,
    (∀ p, is_absolute p → url_plain p →
       _expand_to_full_path_or_url E (LocStr ("file://" +:+ p)) = resolved E p ∧
       (∀ r, _expand_to_full_path_or_url E (LocStr p) = Return r →
             _expand_to_full_path_or_url E (LocStr ("file://" +:+ p))
             = Return r) ∧
       (single_root p ∨ str_contains "://" p = false →
          _expand_to_full_path_or_url E (LocStr ("file://" +:+ p))
          = _expand_to_full_path_or_url E (LocStr p))) ∧
    (∀ s parsed, str_contains "://" s = true → urlparse E s = Return parsed →
       scheme parsed ≠ "" → scheme parsed ≠ "file" →
       _expand_to_full_path_or_url E (LocStr s) = Return (Some s)) ∧
    _expand_to_full_path_or_url E LocNone = Return None ∧
    _expand_to_full_path_or_url E (LocStr "") = Return (Some "") ∧
    (∀ s parsed, str_contains "://" s = true → urlparse E s = Return parsed →
       scheme parsed = "" →
       _expand_to_full_path_or_url E (LocStr s) = resolved E s) ∧
    _expand_to_full_path_or_url E (LocStr "file:///tmp/x.csv")
    = _expand_to_full_path_or_url E (LocStr "/tmp/x.csv") ∧
    _expand_to_full_path_or_url E (LocStr "https://example.org/x.csv")
    = Return (Some "https://example.org/x.csv").
Proof.
  intros E.
  assert (Hfile : ∀ p, is_absolute p → url_plain p →
    _expand_to_full_path_or_url E (LocStr ("file://" +:+ p)) = resolved E p).
  { intros p Habs Hplain. unfold _expand_to_full_path_or_url.
    change (str_truthy ("file://" +:+ p)) with true. cbn [negb].
    assert (Hin : str_contains "://" ("file://" +:+ p) = true)
      by (by destruct Habs as [rest ->]).
    rewrite Hin, urlparse_file_url, bind_Return by done. cbn [scheme path].
    change (str_eqb "file" "file") with true. cbn iota.
    unfold url2pathname. rewrite ascii_in_false; [done|].
    by destruct (url_plain_chars _ Hplain) as (_ & _ & _ & ?). }
  assert (Hdirect : ∀ p, is_absolute p → url_plain p →
    (∀ e, urlparse E p ≠ Raise e) ∨ str_contains "://" p = false →
    _expand_to_full_path_or_url E (LocStr p) = resolved E p).
  { intros p Habs Hplain Hok. unfold _expand_to_full_path_or_url.
    assert (Htruthy : str_truthy p = true) by (by destruct Habs as [rest ->]).
    rewrite Htruthy. cbn [negb].
    destruct (str_contains "://" p); [|done].
    destruct Hok as [Hok|?]; [|done].
    destruct (urlparse E p) as [parsed|e] eqn:Hparse; [|by destruct (Hok e)].
    rewrite bind_Return.
    by rewrite (urlparse_absolute_scheme E p parsed Habs Hplain Hparse). }
  split; [|split; [|split; [|split; [|split; [|split]]]]].
  - intros p Habs Hplain. split; [by apply Hfile|]. split.
    + intros r Hr. rewrite Hfile by done. rewrite <- Hr. symmetry.
      apply Hdirect; [done..|].
      destruct (str_contains "://" p) eqn:Hin; [left|by right].
      intros e He. unfold _expand_to_full_path_or_url in Hr.
      assert (Htruthy : str_truthy p = true) by (by destruct Habs as [rest ->]).
      rewrite Htruthy, Hin, He in Hr. discriminate.
    + intros Hroot. rewrite Hfile by done. symmetry.
      apply Hdirect; [done..|]. destruct Hroot as [Hroot|?]; [left|by right].
      intros e He.
      destruct (urlparse_absolute_path E p) as (parsed & Hp & _); [done..|].
      congruence.
  - intros s parsed Hin Hparse Hne Hnf. unfold _expand_to_full_path_or_url.
    rewrite (str_contains_nonempty "://" s), Hin, Hparse, bind_Return by done.
    cbn [negb]. unfold str_eqb. rewrite bool_decide_eq_false_2 by done.
    unfold str_truthy, str_eqb. by rewrite bool_decide_eq_false_2.
  - done.
  - done.
  - intros s parsed Hin Hparse Hsch. unfold _expand_to_full_path_or_url.
    rewrite (str_contains_nonempty "://" s), Hin, Hparse, bind_Return by done.
    cbn [negb]. by rewrite Hsch.
  - assert (Habs : is_absolute "/tmp/x.csv") by (by eexists).
    assert (Hplain : url_plain "/tmp/x.csv") by (repeat constructor).
    exact (eq_trans (Hfile _ Habs Hplain)
             (eq_sym (Hdirect _ Habs Hplain (or_intror eq_refl)))).
  - by vm_compute.
Qed.

Lemma path_normalizer_cases_witness :
  is_absolute "/home/user/file.txt" ∧ url_plain "/home/user/file.txt" ∧
  _expand_to_full_path_or_url example_env (LocStr "/home/user/file.txt")
  = Return (Some "/home/user/file.txt") ∧
  _expand_to_full_path_or_url example_env (LocStr "file:///home/user/file.txt")
  = Return (Some "/home/user/file.txt").
Proof.
  assert (Habs : is_absolute "/home/user/file.txt") by (by eexists).
  assert (Hplain : url_plain "/home/user/file.txt") by (repeat constructor).
  split; [exact Habs|]. split; [exact Hplain|]. split; [reflexivity|].
  exact (proj1 (proj2 (proj1 (path_normalizer_cases example_env)
                         "/home/user/file.txt" Habs Hplain))
           (Some "/home/user/file.txt") eq_refl).
Defined.

(** Without the conditions on [p] the two results differ: the URL parser
    cuts a fragment and a query off, [url2pathname] decodes an escape, the
    parser drops tabs and line breaks; and on a path that starts with two
    slashes and holds ["://"], the direct call reads a network location
    and can raise where the URL is resolved as a path. On a path that
    cannot be resolved neither call gives a string. *)
Lemma file_url_round_trip_counterexample :
  is_absolute "/tmp/a#b.csv" ∧
  _expand_to_full_path_or_url example_env (LocStr ("file://" +:+ "/tmp/a#b.csv"))
  = Return (Some "/tmp/a") ∧
  _expand_to_full_path_or_url example_env (LocStr "/tmp/a#b.csv")
  = Return (Some "/tmp/a#b.csv") ∧
  _expand_to_full_path_or_url example_env (LocStr ("file://" +:+ "/tmp/a#b.csv"))
  ≠ _expand_to_full_path_or_url example_env (LocStr "/tmp/a#b.csv") ∧
  _expand_to_full_path_or_url example_env (LocStr ("file://" +:+ "/tmp/a?b.csv"))
  = Return (Some "/tmp/a") ∧
  _expand_to_full_path_or_url example_env (LocStr "/tmp/a?b.csv")
  = Return (Some "/tmp/a?b.csv") ∧
  _expand_to_full_path_or_url decoding_env (LocStr ("file://" +:+ "/tmp/a%41"))
  = Return (Some "/tmp/aA") ∧
  _expand_to_full_path_or_url decoding_env (LocStr "/tmp/a%41")
  = Return (Some "/tmp/a%41") ∧
  (∀ c, c ∈ ["009"; "010"; "013"]%char →
     _expand_to_full_path_or_url example_env
       (LocStr ("file://" +:+ "/tmp/a" +:+ String c "b"))
     = Return (Some "/tmp/ab") ∧
     _expand_to_full_path_or_url example_env
       (LocStr ("/tmp/a" +:+ String c "b"))
     = Return (Some ("/tmp/a" +:+ String c "b"))) ∧
  is_absolute "//[a://b" ∧
  (∀ E, _expand_to_full_path_or_url E (LocStr ("file://" +:+ "//[a://b"))
        = resolved E "//[a://b") ∧
  (∀ E, _expand_to_full_path_or_url E (LocStr "//[a://b")
        = Raise (ValueError "Invalid IPv6 URL")) ∧
  is_absolute ("/tmp/a" +:+ String "000" "b") ∧
  _expand_to_full_path_or_url refusing_env
    (LocStr ("/tmp/a" +:+ String "000" "b"))
  = Raise (ValueError "embedded null byte") ∧
  _expand_to_full_path_or_url refusing_env
    (LocStr ("file://" +:+ "/tmp/a" +:+ String "000" "b"))
  = Raise (ValueError "embedded null byte").
Proof.
  split; [by eexists|]. split; [reflexivity|]. split; [reflexivity|].
  split; [vm_compute; discriminate|].
  split; [reflexivity|]. split; [reflexivity|].
  split; [reflexivity|]. split; [reflexivity|].
  split.
  { intros c Hc. repeat (apply elem_of_cons in Hc as [->|Hc]; [by vm_compute|]).
    by apply elem_of_nil in Hc. }
  split; [by eexists|]. split; [intros E; reflexivity|].
  split; [intros E; reflexivity|].
  split; [by eexists|]. split; reflexivity.
Qed.

(** ** The label model, further *)

Lemma variables_lookup original0 variables0 values0 var :
  variables (__post_init__ original0 variables0 values0) !! var
  = if decide (var ∈ original0)
    then Some (match variables0 !! var ≫= real_label with
               | None => var
               | Some lbl => lbl
               end)
    else None.
Proof.
  unfold __post_init__. cbn [variables]. rewrite label_fold, lookup_omap.
  by rewrite lookup_empty.
Qed.

(** X5. Keys of the label model. After the construction a name has a
    variable label exactly when it is in [original], so a raw label for any
    other name is dropped; a value-label dictionary that is kept is the raw
    dictionary unchanged. *)
Theorem label_model_keys :
  ∀ original0 variables0 values0 var,
    let labels := __post_init__ original0 variables0 values0 in
    (is_Some (variables labels !! var) ↔ var ∈ original0) ∧
    (is_Some (values labels !! var) →
       ∃ d, values0 !! var = Some (Some d) ∧ values labels !! var = Some d).
Proof.
  intros original0 variables0 values0 var labels. split.
  - unfold labels. rewrite variables_lookup.
    destruct (decide (var ∈ original0)); split; try done.
  - intros [d Hd]. exists d. split; [|done].
    unfold labels, __post_init__ in Hd. cbn [values] in Hd.
    rewrite lookup_omap in Hd.
    destruct (values0 !! var) as [[m|]|]; try done. simpl in Hd.
    destruct (decide (0 < size m)); [|done]. by injection Hd as ->.
Qed.

(** X6. The normalisation of the label model is idempotent: building a
    model again from the fields of a model gives the same model. *)
Theorem label_model_idempotent :
  ∀ original0 variables0 values0,
    let labels := __post_init__ original0 variables0 values0 in
    __post_init__ (original labels) (PStr <$> variables labels)
      (Some <$> values labels) = labels.
Proof.
  intros original0 variables0 values0 labels.
  assert (Hvars : variables (__post_init__ (original labels)
                    (PStr <$> variables labels) (Some <$> values labels))
                  = variables labels).
  { apply map_eq. intros var. rewrite variables_lookup.
    change (original labels) with original0.
    rewrite lookup_fmap. unfold labels at 2. rewrite variables_lookup.
    destruct (decide (var ∈ original0)) as [Hin|Hin]; [|done].
    unfold labels. rewrite variables_lookup, decide_True by done.
    simpl. f_equal.
    destruct (variables0 !! var ≫= real_label) as [lbl|] eqn:Hlbl.
    - destruct (variables0 !! var) as [[|s|r]|]; simpl in Hlbl; try done.
      destruct (str_truthy (strip s)) eqn:Hs; [|done].
      injection Hlbl as <-. simpl. by rewrite Hs.
    - simpl. by destruct (str_truthy (strip var)). }
  assert (Hvals : values (__post_init__ (original labels)
                    (PStr <$> variables labels) (Some <$> values labels))
                  = values labels).
  { apply map_eq. intros var. unfold __post_init__ at 1. cbn [values].
    rewrite lookup_omap, lookup_fmap.
    destruct (values labels !! var) as [d|] eqn:Hd; [|done]. simpl.
    destruct (decide (0 < size d)) as [|Hsz]; [done|]. exfalso.
    unfold labels, __post_init__ in Hd. cbn [values] in Hd.
    rewrite lookup_omap in Hd.
    destruct (values0 !! var) as [[m|]|]; try done. simpl in Hd.
    destruct (decide (0 < size m)); [|done]. injection Hd as ->. lia. }
  unfold __post_init__ at 1. unfold __post_init__ in Hvars, Hvals.
  cbn [variables values] in Hvars, Hvals. rewrite Hvars, Hvals.
  done.
Qed.

(** ** The flattener, further *)

Lemma flattener_run_spec kws columns row0 rest :
  rectangular (length row0) (row0 :: rest) →
  NoDup columns → length columns = length row0 →
  flattener_run kws columns row0 rest
    (filled (kws_sentinel kws) (row0 :: rest))
    (clean_stacks (length row0) (filled (kws_sentinel kws) (row0 :: rest)))
    (final_names (chosen_combine kws)
       (clean_stacks (length row0) (filled (kws_sentinel kws) (row0 :: rest)))).
Proof.
  intros Hrect Hnd Hlen.
  pose proof (apply_multiheader_spec columns row0 rest kws Hrect Hnd Hlen)
    as Hrun. cbn zeta in Hrun.
  split; [by apply fill_and_clean_spec|]. split.
  { rewrite <- (length_filled (kws_sentinel kws) (row0 :: rest)).
    apply collect_levels_spec. by apply rectangular_filled. }
  split; [by apply header_new_names_spec|]. split.
  - intros Hdistinct. by rewrite Hrun, decide_True.
  - intros Hdup. by rewrite Hrun, decide_False.
Qed.

Lemma final_names_lookup_empty combine stacks c :
  stacks !! c = Some [] →
  final_names combine stacks !! c = Some ("column_" +:+ pretty (c + 1)).
Proof.
  intros Hst. unfold final_names. by rewrite list_lookup_imap, Hst.
Qed.

Lemma clean_stacks_lookup n_cols rows c :
  c < n_cols →
  clean_stacks n_cols rows !! c = Some (levels_clean_of (column rows c)).
Proof.
  intros Hc. unfold clean_stacks.
  rewrite list_lookup_fmap, lookup_seq_lt by done. done.
Qed.

(** X1. A header of one row. Over a frame of distinct column names, a
    header of a single row names each column by the stripped text of its
    cell: a cell that is missing or blank gives the name [column_<c+1>], and
    any other cell gives its stripped text under the default rule (the text
    ["None"] apart) and under the rule ['_']. The call returns these names
    when they are distinct, and the renaming is refused otherwise. *)
Theorem single_row_header :
  ∀ kws columns row0,
    NoDup columns → length columns = length row0 →
    ∃ new_names,
      header_new_names kws 1 (length row0) [row0] = Return new_names ∧
      length new_names = length row0 ∧
      (NoDup new_names →
         _apply_multiheader_from_frames columns [row0] kws = Return new_names) ∧
      (¬ NoDup new_names →
         _apply_multiheader_from_frames columns [row0] kws
         = Raise DuplicateError) ∧
      ∀ c v, row0 !! c = Some v →
        (is_missing (kws_sentinel kws) v = true ∨ blank (py_str v) = true →
           new_names !! c = Some ("column_" +:+ pretty (c + 1))) ∧
        (is_missing (kws_sentinel kws) v = false →
         blank (py_str v) = false →
         (header_combine_rule kws = None ∧ strip (py_str v) ≠ "None") ∨
         header_combine_rule kws = Some CombineUnderscore →
           new_names !! c = Some (strip (py_str v))).
Proof.
  intros kws columns row0 Hnd Hlen.
  assert (Hrect : rectangular (length row0) [row0]) by (by repeat constructor).
  destruct (flattener_run_spec kws columns row0 [] Hrect Hnd Hlen)
    as (_ & _ & Hnames & Hret & Hdup).
  eexists. split; [exact Hnames|]. split.
  { by rewrite length_final_names, length_clean_stacks. }
  split; [exact Hret|]. split; [exact Hdup|].
  intros c v Hv.
  assert (Hc : c < length row0) by (by eapply lookup_lt_Some).
  set (sentinel := kws_sentinel kws).
  set (cell := if is_missing sentinel v then PNone else PStr (py_str v)).
  assert (Hfilled : filled sentinel [row0] = [clean_last sentinel row0]) by done.
  assert (Hcol : column [clean_last sentinel row0] c = [cell]).
  { unfold column, clean_last. simpl. by rewrite list_lookup_fmap, Hv. }
  assert (Hstack : clean_stacks (length row0) (filled sentinel [row0]) !! c
                   = Some (levels_clean_of [cell])).
  { by rewrite clean_stacks_lookup, Hfilled, Hcol. }
  split.
  - intros Hblank. apply final_names_lookup_empty. rewrite Hstack. f_equal.
    unfold levels_clean_of, cell. simpl.
    destruct (is_missing sentinel v); [done|]. simpl.
    destruct Hblank as [?|Hb]; [done|]. apply strip_blank in Hb.
    by rewrite Hb.
  - intros Hmiss Hblank Hrule.
    assert (Hne : strip (py_str v) ≠ "").
    { intros Hs%strip_blank. congruence. }
    assert (Hlev : levels_clean_of [cell] = [strip (py_str v)]).
    { unfold levels_clean_of, cell. rewrite Hmiss. simpl.
      unfold str_eqb. by rewrite bool_decide_eq_false_2. }
    rewrite Hlev in Hstack.
    rewrite (final_names_lookup _ _ _ _ _ Hstack).
    destruct (decide _); [done|]. f_equal.
    unfold chosen_combine. destruct Hrule as [[-> Hnone] | ->]; [|done].
    rewrite combine_with_parens_clean.
    + rewrite filter_cons, decide_True by done. done.
    + repeat constructor; [apply strip_idem | done].
Qed.

Lemma fallback_name_inj c1 c2 :
  "column_" +:+ pretty (c1 + 1) = "column_" +:+ pretty (c2 + 1) → c1 = c2.
Proof.
  intros Heq. injection Heq as Heq. change ("" +:+ ?x) with x in Heq.
  apply (inj (pretty (A:=nat))) in Heq. lia.
Qed.

(** X2. No deduplication. Two columns whose clean-level stacks are the same
    and not empty get the same name, and the call then fails: the renaming
    to names two of which are equal is refused with [DuplicateError]. Two
    columns with an empty stack get different names. *)
Theorem flattener_keeps_duplicates :
  ∀ kws columns row0 rest,
    rectangular (length row0) (row0 :: rest) →
    NoDup columns → length columns = length row0 →
    ∃ rows2 stacks new_names,
      flattener_run kws columns row0 rest rows2 stacks new_names ∧
      (∀ c1 c2 st, c1 ≠ c2 → st ≠ [] →
         stacks !! c1 = Some st → stacks !! c2 = Some st →
         new_names !! c1 = new_names !! c2 ∧
         _apply_multiheader_from_frames columns (row0 :: rest) kws
         = Raise DuplicateError) ∧
      (∀ c1 c2, c1 ≠ c2 →
         stacks !! c1 = Some [] → stacks !! c2 = Some [] →
         new_names !! c1 ≠ new_names !! c2).
Proof.
  intros kws columns row0 rest Hrect Hnd Hlen.
  pose proof (flattener_run_spec kws columns row0 rest Hrect Hnd Hlen) as Hrun.
  eexists _, _, _. split; [exact Hrun|].
  destruct Hrun as (_ & _ & _ & _ & Hdup). revert Hdup.
  set (stacks := clean_stacks _ _). intros Hdup. split.
  - intros c1 c2 st Hne Hst H1 H2. destruct st as [|base lower]; [done|].
    assert (Heq : final_names (chosen_combine kws) stacks !! c1
                  = final_names (chosen_combine kws) stacks !! c2).
    { by rewrite (final_names_lookup _ _ _ _ _ H1),
                 (final_names_lookup _ _ _ _ _ H2). }
    split; [done|]. apply Hdup. intros Hnodup.
    rewrite (final_names_lookup _ _ _ _ _ H1) in Heq.
    apply Hne. eapply NoDup_lookup; [exact Hnodup| |by symmetry; exact Heq].
    by rewrite (final_names_lookup _ _ _ _ _ H1).
  - intros c1 c2 Hne H1 H2.
    rewrite !final_names_lookup_empty by done.
    intros Heq. apply Hne, fallback_name_inj. congruence.
Qed.

(** X3. Renaming by position. The names the flattener returns do not
    depend on the names the data frame came with: two frames of distinct
    column names and the width of the header get the same result. *)
Theorem flattener_renames_by_position :
  ∀ kws columns columns' row0 rest,
    rectangular (length row0) (row0 :: rest) →
    NoDup columns → length columns = length row0 →
    NoDup columns' → length columns' = length row0 →
    _apply_multiheader_from_frames columns (row0 :: rest) kws
    = _apply_multiheader_from_frames columns' (row0 :: rest) kws.
Proof.
  intros kws columns columns' row0 rest Hrect Hnd Hlen Hnd' Hlen'.
  by rewrite !apply_multiheader_spec.
Qed.

Lemma levels_clean_of_blank levels :
  Forall (λ x, x = PNone) levels → levels_clean_of levels = [].
Proof. induction 1 as [|x l -> _ IH]; [done|]. exact IH. Qed.

(** X4. Fallback name. A column whose cell is missing in every row, with
    nothing but missing cells on its left in the rows above the last, is
    named [column_<c+1>] in [new_names], the names the call returns unless
    two of them are equal. *)
Theorem blank_column_fallback_name :
  ∀ kws columns row0 rest c,
    rectangular (length row0) (row0 :: rest) →
    NoDup columns → length columns = length row0 → c < length row0 →
    (∀ r row v, (row0 :: rest) !! r = Some row → row !! c = Some v →
       is_missing (kws_sentinel kws) v = true ∧
       (r < length rest → none_left (kws_sentinel kws) row c)) →
    ∃ new_names,
      header_new_names kws (length (row0 :: rest)) (length row0) (row0 :: rest)
      = Return new_names ∧
      new_names !! c = Some ("column_" +:+ pretty (c + 1)) ∧
      (NoDup new_names →
         _apply_multiheader_from_frames columns (row0 :: rest) kws
         = Return new_names) ∧
      (¬ NoDup new_names →
         _apply_multiheader_from_frames columns (row0 :: rest) kws
         = Raise DuplicateError).
Proof.
  intros kws columns row0 rest c Hrect Hnd Hlen Hc Hblank.
  destruct (flattener_run_spec kws columns row0 rest Hrect Hnd Hlen)
    as (_ & _ & Hnames & Hret & Hdup).
  eexists. split; [exact Hnames|].
  split; [|split; [exact Hret | exact Hdup]].
  apply final_names_lookup_empty. rewrite clean_stacks_lookup by done.
  f_equal. apply levels_clean_of_blank.
  set (sentinel := kws_sentinel kws) in *. set (header := row0 :: rest) in *.
  apply Forall_forall. intros x Hx. unfold column in Hx.
  apply list_elem_of_omap in Hx as (row' & Hrow' & Hcell).
  apply list_elem_of_lookup in Hrow' as [r Hr].
  assert (Hlt : r < length header).
  { apply lookup_lt_Some in Hr. by rewrite length_filled in Hr. }
  destruct (lookup_lt_is_Some_2 header r Hlt) as [row Hrow].
  assert (Hw : length row = length row0).
  { eapply (proj1 (Forall_lookup _ _) Hrect); eauto. }
  destruct (lookup_lt_is_Some_2 row c) as [v Hv]; [lia|].
  destruct (Hblank r row v Hrow Hv) as [Hmiss Hleft].
  destruct (decide (r < length header - 1)) as [Hup|Hlast].
  - rewrite filled_lookup_upper, Hrow in Hr by done. injection Hr as <-.
    rewrite (ffill_lookup _ _ _ _ _ Hv), Hmiss in Hcell.
    rewrite ffill_last_none_left in Hcell; [congruence|].
    apply Hleft. unfold header in Hup. simpl in Hup. lia.
  - replace r with (length header - 1) in * by lia.
    rewrite filled_lookup_last, Hrow in Hr. injection Hr as <-.
    unfold clean_last in Hcell.
    rewrite list_lookup_fmap, Hv in Hcell. simpl in Hcell.
    rewrite Hmiss in Hcell. congruence.
Qed.

(** ** The dispatcher, further *)

Lemma read_data_valid E kws fn :
  valid_location E kws fn → kw_big_data kws = false →
  read_data E kws
  = if opt_in (Some (splitext_ext fn)) csv_like then Return (Some CallReadCsv)
    else if opt_in (Some (splitext_ext fn)) excel_like
    then Return (Some CallReadExcel)
    else if opt_in (Some (splitext_ext fn)) stata_files
    then Return (Some CallReadStata)
    else if opt_in (Some (splitext_ext fn)) spss_files
    then call ← read_sav kws; mret (Some call)
    else if opt_in (Some (splitext_ext fn)) r_files then Return (Some CallLoadR)
    else if opt_truthy (kw_url kws) && opt_truthy (kw_credentials kws)
    then call ← read_gspread kws; mret (Some call)
    else Return None.
Proof.
  intros (Hfn & Htruthy & Hvalid) Hbig. unfold read_data.
  rewrite Hfn, bind_Return, Hbig. cbn [opt_truthy search_http default].
  rewrite Htruthy. cbn [orb negb]. rewrite bind_Return. unfold id.
  assert (Hok : negb (String.prefix "http" fn) && negb (isfile E fn) = false).
  { destruct Hvalid as [-> | ->]; [done|]. apply andb_false_r. }
  rewrite Hok.
  repeat (match goal with
          | |- context [if ?b then _ else _] => destruct b
          end; try done).
  - by destruct (read_sav kws).
  - by destruct (read_gspread kws).
Qed.

Ltac family_cases H :=
  repeat (apply elem_of_cons in H as [-> | H]; [by vm_compute|]);
  by apply elem_of_nil in H.

(** X7. Dispatch by family. For a location that passes the checks, and
    without [big_data], an extension of the delimited-text, spreadsheet,
    Stata, SPSS or R family sends the call to the reader of that family and
    to no other. *)
Theorem read_data_dispatch_by_family :
  ∀ E kws fn,
    valid_location E kws fn → kw_big_data kws = false →
    (splitext_ext fn ∈ csv_like →
       read_data E kws = Return (Some CallReadCsv)) ∧
    (splitext_ext fn ∈ excel_like →
       read_data E kws = Return (Some CallReadExcel)) ∧
    (splitext_ext fn ∈ stata_files →
       read_data E kws = Return (Some CallReadStata)) ∧
    (splitext_ext fn ∈ spss_files →
       read_data E kws = (call ← read_sav kws; mret (Some call))) ∧
    (splitext_ext fn ∈ r_files →
       read_data E kws = Return (Some CallLoadR)).
Proof.
  intros E kws fn Hvalid Hbig.
  rewrite (read_data_valid E kws fn Hvalid Hbig). unfold opt_in.
  generalize (splitext_ext fn). intros ext.
  repeat split; intros Hext.
  - by rewrite bool_decide_eq_true_2.
  - assert (Hcsv : bool_decide (ext ∈ csv_like) = false)
      by (clear -Hext; family_cases Hext).
    by rewrite Hcsv, bool_decide_eq_true_2.
  - assert (Hcsv : bool_decide (ext ∈ csv_like) = false)
      by (clear -Hext; family_cases Hext).
    assert (Hxls : bool_decide (ext ∈ excel_like) = false)
      by (clear -Hext; family_cases Hext).
    by rewrite Hcsv, Hxls, bool_decide_eq_true_2.
  - assert (Hcsv : bool_decide (ext ∈ csv_like) = false)
      by (clear -Hext; family_cases Hext).
    assert (Hxls : bool_decide (ext ∈ excel_like) = false)
      by (clear -Hext; family_cases Hext).
    assert (Hdta : bool_decide (ext ∈ stata_files) = false)
      by (clear -Hext; family_cases Hext).
    by rewrite Hcsv, Hxls, Hdta, bool_decide_eq_true_2.
  - assert (Hcsv : bool_decide (ext ∈ csv_like) = false)
      by (clear -Hext; family_cases Hext).
    assert (Hxls : bool_decide (ext ∈ excel_like) = false)
      by (clear -Hext; family_cases Hext).
    assert (Hdta : bool_decide (ext ∈ stata_files) = false)
      by (clear -Hext; family_cases Hext).
    assert (Hsav : bool_decide (ext ∈ spss_files) = false)
      by (clear -Hext; family_cases Hext).
    by rewrite Hcsv, Hxls, Hdta, Hsav, bool_decide_eq_true_2.
Qed.

(** X8. Unknown extension. For a location that passes the checks, without
    [big_data], and with an extension of no family, [read_data] returns
    [None] unless both [url] and [credentials] are given, in which case
    the call goes to the remote-spreadsheet reader. *)
Theorem read_data_unknown_extension :
  ∀ E kws fn,
    valid_location E kws fn → kw_big_data kws = false →
    unknown_extension (splitext_ext fn) →
    (opt_truthy (kw_url kws) = false ∨ opt_truthy (kw_credentials kws) = false →
       read_data E kws = Return None) ∧
    (opt_truthy (kw_url kws) = true → opt_truthy (kw_credentials kws) = true →
       read_data E kws
       = Return (Some (CallGspread (default "" (kw_url kws))
                                   (default "" (kw_credentials kws))))).
Proof.
  intros E kws fn Hvalid Hbig (Hcsv & Hxls & Hdta & Hsav & Hr).
  rewrite (read_data_valid E kws fn Hvalid Hbig). unfold opt_in.
  rewrite !bool_decide_eq_false_2 by done. split.
  - intros [-> | ->]; [done|]. by rewrite andb_false_r.
  - intros Hurl Hcred. rewrite Hurl, Hcred. cbn [andb].
    unfold read_gspread. by rewrite Hurl, Hcred.
Qed.

Lemma expand_with_isfile E f p :
  _expand_to_full_path_or_url (with_isfile E f) p
  = _expand_to_full_path_or_url E p.
Proof. done. Qed.

Lemma read_data_not_found E kws fn :
  _expand_to_full_path_or_url E (kw_fn kws) = Return (Some fn) →
  str_truthy fn = true →
  String.prefix "http" fn = false → isfile E fn = false →
  read_data E kws = Raise (AssertionError ("File " +:+ fn +:+ " not found.")).
Proof.
  intros Hfn Htruthy Hhttp Hfile. unfold read_data.
  rewrite Hfn, bind_Return. cbn [opt_truthy search_http default].
  rewrite Htruthy. cbn [orb negb]. rewrite bind_Return. unfold id.
  by rewrite Hhttp, Hfile.
Qed.

Lemma expand_other_scheme E s parsed :
  str_contains "://" s = true → urlparse E s = Return parsed →
  scheme parsed ≠ "" → scheme parsed ≠ "file" →
  _expand_to_full_path_or_url E (LocStr s) = Return (Some s).
Proof.
  intros Hin Hparse Hne Hnf. unfold _expand_to_full_path_or_url.
  rewrite (str_contains_nonempty "://" s), Hin, Hparse, bind_Return by done.
  cbn [negb]. unfold str_eqb. rewrite bool_decide_eq_false_2 by done.
  unfold str_truthy, str_eqb. by rewrite bool_decide_eq_false_2.
Qed.

(** X9. The file check. A location that does not start with ["http"] and
    names no existing file raises [AssertionError], whatever the other
    arguments; for a location that starts with ["http"] the file system is
    not asked, so the result does not depend on [os.path.isfile]. *)
Theorem read_data_file_check :
  ∀ E kws fn,
    _expand_to_full_path_or_url E (kw_fn kws) = Return (Some fn) →
    str_truthy fn = true →
    (String.prefix "http" fn = false → isfile E fn = false →
       read_data E kws
       = Raise (AssertionError ("File " +:+ fn +:+ " not found."))) ∧
    (String.prefix "http" fn = true →
       ∀ f, read_data (with_isfile E f) kws = read_data E kws).
Proof.
  intros E kws fn Hfn Htruthy. split.
  - by apply read_data_not_found.
  - intros Hhttp f. unfold read_data.
    rewrite expand_with_isfile, Hfn, !bind_Return.
    cbn [opt_truthy search_http default].
    rewrite Htruthy. cbn [orb negb]. rewrite !bind_Return.
    by rewrite Hhttp.
Qed.

(** X10. Other URL schemes. A string with ["://"] and a scheme other than
    ["file"] is left unchanged by the normaliser, but unless it starts with
    ["http"], in lower case, [read_data] then takes it for a file name: when
    no such file exists the call raises [AssertionError]. *)
Theorem read_data_rejects_other_schemes :
  ∀ E kws s parsed,
    kw_fn kws = LocStr s → str_contains "://" s = true →
    urlparse E s = Return parsed →
    scheme parsed ≠ "" → scheme parsed ≠ "file" →
    String.prefix "http" s = false → isfile E s = false →
    read_data E kws = Raise (AssertionError ("File " +:+ s +:+ " not found.")).
Proof.
  intros E kws s parsed Hfn Hin Hparse Hsch Hfile Hhttp Hisfile.
  apply read_data_not_found; try done.
  - rewrite Hfn. by eapply expand_other_scheme.
  - by apply (str_contains_nonempty "://").
Qed.

(** ** The readers, further *)

(** X11. The separator of [read_csv]. The separator handed to the parser
    is never empty; a separator of the caller that is not empty is used as
    it is; an empty one counts as none; the defaults are a tab for [.tsv]
    and [.txt], a space for [.dat] and a semicolon for [.csv]. *)
Theorem read_csv_separator_never_empty :
  ∀ fn sep,
    read_csv_separator fn sep ≠ "" ∧
    (∀ s, sep = Some s → s ≠ "" → read_csv_separator fn sep = s) ∧
    read_csv_separator fn (Some "") = read_csv_separator fn None ∧
    (splitext_ext fn ∈ [".tsv"; ".TSV"; ".txt"; ".TXT"] →
       read_csv_separator fn None = String "009" EmptyString) ∧
    (splitext_ext fn ∈ [".dat"; ".DAT"] → read_csv_separator fn None = " ") ∧
    (splitext_ext fn ∈ [".csv"; ".CSV"] → read_csv_separator fn None = ";").
Proof.
  intros fn sep. unfold read_csv_separator.
  generalize (splitext_ext fn). intros ext.
  assert (Hor : ∀ d, d ≠ "" → sep_or sep d ≠ "").
  { intros d Hd. unfold sep_or. destruct sep as [s|]; [|done].
    unfold str_truthy, str_eqb. case_bool_decide as Hs; simpl; [done|].
    exact Hs. }
  split; [|split; [|split; [|split; [|split]]]].
  - repeat case_bool_decide; by apply Hor.
  - intros s -> Hs. unfold sep_or, str_truthy, str_eqb.
    rewrite (bool_decide_eq_false_2 (s = "")) by done.
    by repeat case_bool_decide.
  - done.
  - intros Hext. by rewrite bool_decide_eq_true_2.
  - intros Hext.
    repeat (apply elem_of_cons in Hext as [-> | Hext]; [by vm_compute|]).
    by apply elem_of_nil in Hext.
  - intros Hext.
    repeat (apply elem_of_cons in Hext as [-> | Hext]; [by vm_compute|]).
    by apply elem_of_nil in Hext.
Qed.

(** X12. The shape of [rows_range]. With fewer than two entries
    [read_sav] raises [IndexError]; with two or more, only the first two
    count, for any integers [a] and [b]: the offset is [a - 1] and the limit
    [b - a + 1]. *)
Theorem read_sav_rows_range_shape :
  ∀ kws rows,
    kw_rows_range kws = Some rows →
    (length rows < 2 → ∃ msg, read_sav kws = Raise (IndexError msg)) ∧
    (∀ a b more, rows = a :: b :: more →
       read_sav kws
       = Return (CallReadSav (kw_cols kws) (a - 1)%Z (b - a + 1)%Z)).
Proof.
  intros kws rows Hrange. split.
  - intros Hlen. unfold read_sav. rewrite Hrange.
    destruct rows as [|a [|b more]]; simpl in *; eauto; lia.
  - intros a b more ->. unfold read_sav. rewrite Hrange. cbn.
    do 2 f_equal. lia.
Qed.

(** ** The list helpers *)

(** X13. [_list_flatten] flattens one level: a list with no list among
    its elements is unchanged, a list of lists becomes their concatenation
    (inner lists of those stay), the function distributes over [++], and the
    length of the result is the sum of the lengths of the items. *)
Theorem list_flatten_one_level :
  (∀ l, Forall (λ x, _is_list x = false) l → _list_flatten l = l) ∧
  (∀ ls, _list_flatten (OList <$> ls) = concat ls) ∧
  (∀ l1 l2, _list_flatten (l1 ++ l2) = _list_flatten l1 ++ _list_flatten l2) ∧
  (∀ l, length (_list_flatten l) = sum_list (map (λ x, length (as_items x)) l)).
Proof.
  unfold _list_flatten. repeat split.
  - induction 1 as [|x l Hx _ IH]; [done|]. simpl. rewrite IH.
    by destruct x.
  - intros ls. induction ls as [|xs ls IH]; [done|].
    rewrite fmap_cons. cbn [map as_items concat]. by rewrite IH.
  - intros l1 l2. by rewrite map_app, concat_app.
  - intros l. induction l as [|x l IH]; [done|]. simpl.
    by rewrite length_app, IH.
Qed.

Lemma concat_replicate_lookup {A : Type} (xs : list A) (n i : nat) :
  i < n * length xs →
  concat (replicate n xs) !! i = xs !! (i mod length xs).
Proof.
  revert i. induction n as [|n IH]; intros i Hi; [lia|].
  simpl. destruct (decide (i < length xs)) as [Hlt|Hge].
  - rewrite lookup_app_l by done. by rewrite Nat.mod_small.
  - rewrite lookup_app_r by lia. rewrite IH by lia. f_equal.
    replace i with ((i - length xs) + 1 * length xs) at 2 by lia.
    by rewrite Nat.Div0.mod_add.
Qed.

Lemma length_concat_replicate {A : Type} (xs : list A) (n : nat) :
  length (concat (replicate n xs)) = n * length xs.
Proof. induction n as [|n IH]; [done|]. simpl. rewrite length_app, IH. lia. Qed.

(** X14. [_repeat] cycles through its argument: the result has
    [times] copies of the items, it is empty when [times] is not positive,
    and its element of index [i] is the item of index [i mod n]. *)
Theorem repeat_cycles :
  ∀ x times,
    let xs := as_items x in
    length (_repeat x times) = Z.to_nat times * length xs ∧
    ((times ≤ 0)%Z → _repeat x times = []) ∧
    (∀ i, i < Z.to_nat times * length xs →
          _repeat x times !! i = xs !! (i mod length xs)).
Proof.
  intros x times xs.
  assert (Hxs : (if negb (_is_list x) then [x] else as_items x) = xs)
    by (by destruct x).
  unfold _repeat. rewrite Hxs. split; [|split].
  - apply length_concat_replicate.
  - intros Hle. by replace (Z.to_nat times) with 0 by lia.
  - intros i Hi. by apply concat_replicate_lookup.
Qed.

(** X15. [_filter_kwargs_for] keeps exactly the arguments whose name is a
    parameter of the function, with their values; the result is a part of
    the input, filtering twice changes nothing, and two filters commute. *)
Theorem filter_kwargs_for_keeps_allowed :
  ∀ allowed kwargs,
    _filter_kwargs_for allowed kwargs ⊆ kwargs ∧
    (∀ k, _filter_kwargs_for allowed kwargs !! k
          = if decide (k ∈ allowed) then kwargs !! k else None) ∧
    _filter_kwargs_for allowed (_filter_kwargs_for allowed kwargs)
    = _filter_kwargs_for allowed kwargs ∧
    (∀ allowed', _filter_kwargs_for allowed (_filter_kwargs_for allowed' kwargs)
                 = _filter_kwargs_for allowed' (_filter_kwargs_for allowed kwargs)).
Proof.
  intros allowed kwargs.
  assert (Hlookup : ∀ al kw k, _filter_kwargs_for al kw !! k
                    = if decide (k ∈ al) then kw !! k else None).
  { intros al kw k. unfold _filter_kwargs_for.
    destruct (kw !! k) as [v|] eqn:Hk.
    - destruct (decide (k ∈ al)) as [Hin|Hin].
      + by apply map_lookup_filter_Some.
      + apply map_lookup_filter_None. right. intros v' _. exact Hin.
    - destruct (decide (k ∈ al)); apply map_lookup_filter_None; by left. }
  split; [|split; [|split]].
  - apply map_filter_subseteq.
  - apply Hlookup.
  - apply map_eq. intros k. rewrite !Hlookup. by destruct (decide _).
  - intros allowed'. apply map_eq. intros k. rewrite !Hlookup.
    by repeat destruct (decide _).
Qed.

(** ** The R loader *)

Lemma first_data_frame_Some {robj : Type} (Rs : r_session robj) p names r :
  first_data_frame Rs p names = Some r →
  ∃ i name, names !! i = Some name ∧ r = globalenv Rs p name ∧
            is_data_frame Rs r = true ∧
            ∀ j other, j < i → names !! j = Some other →
                       is_data_frame Rs (globalenv Rs p other) = false.
Proof.
  induction names as [|name rest IH]; [done|]. simpl.
  destruct (is_data_frame Rs (globalenv Rs p name)) eqn:Hdf.
  - intros [= <-]. exists 0, name. repeat split; [done|]. intros j other Hj. lia.
  - intros Hrest. destruct (IH Hrest) as (i & n & Hi & -> & Hr & Hbefore).
    exists (S i), n. repeat split; [done..|].
    intros [|j] other Hj Hother; simpl in Hother.
    + by injection Hother as <-.
    + apply (Hbefore j); [lia|done].
Qed.


Lemma load_rdata_returns {robj : Type} (Rs : r_session robj) path obj_name r :
  load_rdata Rs path obj_name = Return r → is_data_frame Rs r = true.
Proof.
  unfold load_rdata. destruct (r_load Rs (path_text path)) as [|n0 names]; [done|].
  destruct obj_name as [name|].
  - destruct (negb (bool_decide _)); [done|].
    destruct (is_data_frame Rs (globalenv Rs (path_text path) name)) eqn:Hdf;
      simpl; [|done]. by intros [= <-].
  - destruct (first_data_frame Rs (path_text path) (n0 :: names)) as [r'|] eqn:Hf;
      [|done].
    intros [= <-]. by destruct (first_data_frame_Some _ _ _ _ Hf)
      as (_ & _ & _ & _ & ? & _).
Qed.

Lemma load_rdata_raises {robj : Type} (Rs : r_session robj) path obj_name e :
  load_rdata Rs path obj_name = Raise e →
  ∃ msg, e = ValueError msg ∨ e = TypeError msg.
Proof.
  unfold load_rdata. destruct (r_load Rs (path_text path)) as [|n0 names].
  { intros [= <-]. eauto. }
  destruct obj_name as [name|].
  - destruct (negb (bool_decide _)); [intros [= <-]; eauto|].
    destruct (negb (is_data_frame Rs _)); [intros [= <-]; eauto | done].
  - destruct (first_data_frame Rs _ _); [done | intros [= <-]; eauto].
Qed.

(** X16. Whatever [_load_r_dataframe] returns is an R data frame, and the
    only exceptions it raises are [ValueError] and [TypeError]. *)
Theorem load_r_dataframe_returns_data_frame :
  ∀ {robj : Type} (Rs : r_session robj) path obj_name,
    (∀ r, _load_r_dataframe Rs path obj_name = Return r →
          is_data_frame Rs r = true) ∧
    (∀ e, _load_r_dataframe Rs path obj_name = Raise e →
          ∃ msg, e = ValueError msg ∨ e = TypeError msg).
Proof.
  intros robj Rs path obj_name. unfold _load_r_dataframe.
  destruct (_detect_file_type (path_suffix path)) as [[|]|e0] eqn:Hty.
  - rewrite bind_Return.
    destruct (safe_readRDS Rs (path_text path)) as [r_df|].
    + destruct (is_data_frame Rs r_df) eqn:Hdf; simpl; split.
      * by intros r [= <-].
      * done.
      * done.
      * intros e [= <-]. eauto.
    + split; [apply load_rdata_returns | apply load_rdata_raises].
  - rewrite bind_Return.
    split; [apply load_rdata_returns | apply load_rdata_raises].
  - split; [done|]. intros e [= <-]. unfold _detect_file_type in Hty.
    destruct (str_eqb _ _); [done|]. destruct (bool_decide _); [done|].
    injection Hty as <-. eauto.
Qed.


(** X18. The R loader accepts every extension of the R family of the
    dispatcher; it compares the suffix in lower case, returns the type
    [rds] for [.rds] and [rdata] for [.rdata] and [.rda], and raises
    [ValueError] for any other suffix. *)
Theorem r_family_accepted_by_loader :
  (∀ ext, ext ∈ r_files → ∃ t, _detect_file_type ext = Return t) ∧
  (∀ suffix, str_lower suffix = ".rds" →
     _detect_file_type suffix = Return RdsFile) ∧
  (∀ suffix, str_lower suffix = ".rdata" ∨ str_lower suffix = ".rda" →
     _detect_file_type suffix = Return RdataFile) ∧
  (∀ suffix, str_lower suffix ∉ [".rds"; ".rdata"; ".rda"] →
     ∃ msg, _detect_file_type suffix = Raise (ValueError msg)).
Proof.
  repeat split.
  - intros ext Hext.
    repeat (apply elem_of_cons in Hext as [-> | Hext]; [by eexists|]).
    by apply elem_of_nil in Hext.
  - intros suffix Hs. unfold _detect_file_type. by rewrite Hs.
  - intros suffix [Hs | Hs]; unfold _detect_file_type; by rewrite Hs.
  - intros suffix Hs. unfold _detect_file_type, str_eqb.
    rewrite bool_decide_eq_false_2.
    + rewrite bool_decide_eq_false_2; [eauto|].
      intros Hin. apply Hs. by right.
    + intros Heq. apply Hs. rewrite Heq. by left.
Qed.

(** ** The labels of an R data frame *)

Lemma extract_fold vl_r val_r var names : ∀ st,
  (foldl (extract_step vl_r val_r) st names).1 !! var
  = (if decide (var ∈ names)
     then match variable_label_of vl_r var with
          | Some l => Some l
          | None => st.1 !! var
          end
     else st.1 !! var) ∧
  (foldl (extract_step vl_r val_r) st names).2 !! var
  = (if decide (var ∈ names)
     then match value_labels_of val_r var with
          | Some m => Some m
          | None => st.2 !! var
          end
     else st.2 !! var).
Proof.
  induction names as [|x names IH]; intros st.
  - destruct (decide (var ∈ [])) as [Hin|_]; [by apply elem_of_nil in Hin|done].
  - simpl. destruct (IH (extract_step vl_r val_r st x)) as [-> ->]. clear IH.
    unfold extract_step. cbn [fst snd].
    destruct (decide (x = var)) as [->|Hne].
    + destruct (decide (var ∈ var :: names)) as [_|Hn];
        [|exfalso; apply Hn; by left].
      destruct (variable_label_of vl_r var), (value_labels_of val_r var);
        rewrite ?lookup_insert_eq; by destruct (decide (var ∈ names)).
    + assert (H1 : ∀ (m : gmap string string) o,
                match o with Some l => <[x := l]> m | None => m end !! var
                = m !! var).
      { intros m [l|]; [by rewrite lookup_insert_ne|done]. }
      assert (H2 : ∀ (m : gmap string (gmap pyval string)) o,
                match o with Some l => <[x := l]> m | None => m end !! var
                = m !! var).
      { intros m [l|]; [by rewrite lookup_insert_ne|done]. }
      rewrite H1, H2.
      destruct (decide (var ∈ names)) as [Hin|Hin].
      * destruct (decide (var ∈ x :: names)) as [_|Hn]; [done|].
        exfalso. apply Hn. by right.
      * destruct (decide (var ∈ x :: names)) as [Hx|_]; [|done].
        apply elem_of_cons in Hx as [?|?]; [congruence|done].
Qed.

Lemma ascii_lower_n a :
  ascii_lower a = "n"%char → a = "n"%char ∨ a = "N"%char.
Proof.
  destruct a as [[] [] [] [] [] [] [] []]; vm_compute; intros Ha;
    try discriminate Ha; auto.
Qed.

Lemma ascii_lower_a a :
  ascii_lower a = "a"%char → a = "a"%char ∨ a = "A"%char.
Proof.
  destruct a as [[] [] [] [] [] [] [] []]; vm_compute; intros Ha;
    try discriminate Ha; auto.
Qed.

(** In lower case a string is ["na"] exactly when it is [NA] in some
    letter case. *)
Lemma str_lower_na s : str_lower s = "na" ↔ na_text s.
Proof.
  unfold na_text. split.
  - destruct s as [|a [|b [|c s]]]; try discriminate.
    unfold str_lower. cbn [list_ascii_of_string map string_of_list_ascii].
    intros [= Ha Hb].
    destruct (ascii_lower_n _ Ha) as [-> | ->],
             (ascii_lower_a _ Hb) as [-> | ->];
      apply (bool_decide_unpack _); by vm_compute.
  - intros Hin.
    repeat (apply elem_of_cons in Hin as [->|Hin]; [by vm_compute|]).
    by apply elem_of_nil in Hin.
Qed.

(** The label the loop keeps for [var]: the first element of its R label,
    when it is neither blank nor [NA]. *)
Lemma variable_label_of_Some vl_r var l :
  variable_label_of vl_r var = Some l ↔
  ∃ rl vec x rest,
    vl_r = Some rl ∧ (var ∈ default [] (rl_names rl)) ∧
    rl_rx2 rl var = Some vec ∧ vec_items vec = x :: rest ∧
    l = py_str x ∧ blank l = false ∧ ¬ na_text l.
Proof.
  unfold variable_label_of. split.
  - destruct vl_r as [rl|]; [|done].
    case_bool_decide as Hin; [|done].
    destruct (rl_rx2 rl var) as [vec|] eqn:Hvec; [|done].
    destruct (vec_items vec) as [|x items] eqn:Hitems; [done|]. cbn zeta.
    rewrite str_truthy_strip.
    destruct (blank (py_str x)) eqn:Hb; [done|]. cbn [negb andb].
    unfold str_eqb. case_bool_decide as Hna; [done|]. cbn [negb].
    intros [= <-]. exists rl, vec, x, items.
    repeat split; try done. by rewrite <- str_lower_na.
  - intros (rl & vec & x & items & -> & Hin & Hvec & Hitems & -> & Hb & Hna).
    rewrite bool_decide_eq_true_2, Hvec, Hitems by done. cbn zeta.
    rewrite str_truthy_strip, Hb. cbn [negb andb].
    unfold str_eqb. rewrite bool_decide_eq_false_2; [done|].
    by rewrite str_lower_na.
Qed.

Lemma extract_labels_variables_lookup var_names vl_r val_r var :
  var ∈ var_names →
  variables (_extract_labels var_names vl_r val_r) !! var
  = Some (default var (variable_label_of vl_r var)).
Proof.
  intros Hin. unfold _extract_labels.
  rewrite variables_lookup, decide_True, lookup_fmap by done.
  rewrite (proj1 (extract_fold vl_r val_r var var_names (∅, ∅))).
  rewrite decide_True by done. cbn [fst]. rewrite lookup_empty.
  destruct (variable_label_of vl_r var) as [l|] eqn:Hl; [|done]. simpl.
  apply variable_label_of_Some in Hl
    as (rl & vec & x & items & _ & _ & _ & _ & _ & Hb & _).
  by rewrite str_truthy_strip, Hb.
Qed.

(** X19. Variable labels from R. Every variable of the frame gets a
    label. When the R list of labels has an entry of that name whose first
    element is neither blank nor [NA] in any letter case, the label is the
    text of that element; when the first element is blank or [NA], and when
    there is no list, no entry of that name or an empty entry, the label is
    the name of the variable. So a label other than the name is never blank
    and never [NA]. *)
Theorem extract_labels_variables :
  ∀ var_names vl_r val_r var,
    var ∈ var_names →
    let labels := _extract_labels var_names vl_r val_r in
    (∀ rl names vec x rest,
       vl_r = Some rl → rl_names rl = Some names → var ∈ names →
       rl_rx2 rl var = Some vec → vec_items vec = x :: rest →
       (blank (py_str x) = false → ¬ na_text (py_str x) →
          variables labels !! var = Some (py_str x)) ∧
       (blank (py_str x) = true ∨ na_text (py_str x) →
          variables labels !! var = Some var)) ∧
    (vl_r = None ∨
     (∃ rl, vl_r = Some rl ∧
        ((var ∉ default [] (rl_names rl)) ∨ rl_rx2 rl var = None ∨
         ∃ vec, rl_rx2 rl var = Some vec ∧ vec_items vec = [])) →
     variables labels !! var = Some var) ∧
    (∀ l, variables labels !! var = Some l → l ≠ var →
          blank l = false ∧ ¬ na_text l).
Proof.
  intros var_names vl_r val_r var Hin labels.
  pose proof (extract_labels_variables_lookup var_names vl_r val_r var Hin)
    as Hlookup. fold labels in Hlookup.
  assert (Hnone : ∀ o, variable_label_of vl_r var = o →
                       (∀ l, o ≠ Some l) → variables labels !! var = Some var).
  { intros [l|] Ho Hn; [by destruct (Hn l)|]. by rewrite Hlookup, Ho. }
  split; [|split].
  - intros rl names vec x rest -> Hnames Hvar Hvec Hitems. split.
    + intros Hb Hna. rewrite Hlookup.
      rewrite (proj2 (variable_label_of_Some (Some rl) var (py_str x))); [done|].
      exists rl, vec, x, rest. rewrite Hnames. done.
    + intros Hbad. apply (Hnone _ eq_refl). intros l Hl.
      apply variable_label_of_Some in Hl
        as (rl' & vec' & x' & rest' & [= <-] & _ & Hvec' & Hitems' & -> & Hb & Hna).
      rewrite Hvec in Hvec'. injection Hvec' as <-.
      rewrite Hitems in Hitems'. injection Hitems' as <- <-.
      destruct Hbad; [congruence|done].
  - intros Hmiss. apply (Hnone _ eq_refl). intros l Hl.
    apply variable_label_of_Some in Hl
      as (rl' & vec' & x' & rest' & Hrl & Hnames & Hvec' & Hitems' & _).
    destruct Hmiss as [-> | (rl & -> & Hcase)]; [done|].
    injection Hrl as <-.
    destruct Hcase as [Hn | [Hn | (vec & Hvec & Hitems)]]; [done|congruence|].
    rewrite Hvec in Hvec'. injection Hvec' as <-. congruence.
  - intros l Hl Hne. rewrite Hlookup in Hl. injection Hl as <-.
    destruct (variable_label_of vl_r var) as [l|] eqn:Hvl; [|done]. simpl.
    apply variable_label_of_Some in Hvl
      as (rl' & vec' & x' & rest' & _ & _ & _ & _ & _ & Hb & Hna).
    done.
Qed.

Lemma code_mapping_fold (l : list (string * string)) :
  ∀ (m : gmap pyval string) code lab,
    foldl (λ m cl, <[PStr cl.1 := cl.2]> m) m l !! code = Some lab →
    m !! code = Some lab ∨ ∃ c, code = PStr c ∧ (c, lab) ∈ l.
Proof.
  induction l as [|[c0 l0] l IH]; intros m code lab Hlook; [by left|].
  simpl in Hlook. destruct (IH _ _ _ Hlook) as [Hm | (c & -> & Hin)].
  - destruct (decide (PStr c0 = code)) as [<-|Hne].
    + rewrite lookup_insert_eq in Hm. injection Hm as <-.
      right. exists c0. split; [done|]. by left.
    + rewrite lookup_insert_ne in Hm by done. by left.
  - right. exists c. split; [done|]. by right.
Qed.

Lemma code_mapping_fold_keeps (l : list (string * string)) :
  ∀ (m : gmap pyval string) c,
    is_Some (m !! PStr c) ∨ (∃ lab, (c, lab) ∈ l) →
    is_Some (foldl (λ m cl, <[PStr cl.1 := cl.2]> m) m l !! PStr c).
Proof.
  induction l as [|[c0 l0] l IH]; intros m c Hc.
  - destruct Hc as [?|[lab Hin]]; [done|]. by apply elem_of_nil in Hin.
  - simpl. apply IH. destruct (decide (c0 = c)) as [->|Hne].
    + left. by rewrite lookup_insert_eq.
    + destruct Hc as [Hm|[lab Hin]].
      * left. rewrite lookup_insert_ne by congruence. done.
      * right. exists lab. apply elem_of_cons in Hin as [[= ? ?]|?]; [congruence|done].
Qed.

(** An entry of the mapping is a pair of the R vector whose label is not
    blank, and every such pair has its code in the mapping. *)
Lemma code_mapping_lookup codes labs code lab :
  code_mapping codes labs !! code = Some lab →
  blank lab = false ∧ ∃ c, code = PStr c ∧ (c, lab) ∈ zip codes labs.
Proof.
  unfold code_mapping. intros Hlook.
  destruct (code_mapping_fold _ _ _ _ Hlook) as [Hm | (c & -> & Hin)].
  { by rewrite lookup_empty in Hm. }
  apply list_elem_of_filter in Hin as [Ht Hin]. simpl in Ht. split; [|eauto].
  rewrite str_truthy_strip in Ht. by destruct (blank lab).
Qed.

Lemma code_mapping_keeps codes labs c lab :
  (c, lab) ∈ zip codes labs → blank lab = false →
  is_Some (code_mapping codes labs !! PStr c).
Proof.
  intros Hin Hb. unfold code_mapping. apply code_mapping_fold_keeps. right.
  exists lab. apply list_elem_of_filter. split; [|done]. simpl.
  by rewrite str_truthy_strip, Hb.
Qed.

Lemma zip_NoDup_fst {A B : Type} (ks : list A) :
  ∀ (vs : list B) k v v',
    NoDup ks → (k, v) ∈ zip ks vs → (k, v') ∈ zip ks vs → v = v'.
Proof.
  induction ks as [|k0 ks IH]; intros vs k v v' Hnd H1 H2.
  { by apply elem_of_nil in H1. }
  destruct vs as [|v0 vs]; [by apply elem_of_nil in H1|]. simpl in H1, H2.
  apply NoDup_cons in Hnd as [Hk0 Hnd].
  apply elem_of_cons in H1 as [Heq1|H1];
    apply elem_of_cons in H2 as [Heq2|H2]; simplify_eq; try done.
  - by apply elem_of_zip_l in H2.
  - by apply elem_of_zip_l in H1.
  - by eapply IH.
Qed.

Lemma extract_labels_values_lookup var_names vl_r val_r var :
  values (_extract_labels var_names vl_r val_r) !! var
  = if decide (var ∈ var_names) then value_labels_of val_r var else None.
Proof.
  unfold _extract_labels, __post_init__. cbn [values].
  rewrite lookup_omap, lookup_fmap.
  rewrite (proj2 (extract_fold vl_r val_r var var_names (∅, ∅))).
  cbn [snd]. rewrite lookup_empty.
  destruct (decide (var ∈ var_names)) as [Hin|]; [|done].
  destruct (value_labels_of val_r var) as [m|] eqn:Hm; [|done]. simpl.
  destruct (decide (0 < size m)) as [|Hsz]; [done|]. exfalso.
  unfold value_labels_of in Hm.
  destruct val_r as [rl|]; [|done]. destruct (bool_decide _); [|done].
  destruct (rl_rx2 rl var) as [vec|]; [|done].
  destruct (vec_items vec) as [|x items]; [done|].
  destruct (vec_names vec) as [vnames|]; [|done]. cbn zeta in Hm.
  destruct (decide _) as [Hpos|]; [|done]. injection Hm as <-. by apply Hsz.
Qed.

(** X20. Value labels from R. A value-label dictionary kept for a
    variable belongs to a variable of the frame and is not empty; it comes
    from the R vector of that name in the list of value labels: each of its
    entries is a code and a label of that vector, paired by position, with
    a label that is not blank, and every pair of the vector whose label is
    not blank has its code in the dictionary, with that very label when the
    codes are distinct. A variable of the frame with such a pair does have
    a dictionary. *)
Theorem extract_labels_values :
  ∀ var_names vl_r val_r var,
    let kept := values (_extract_labels var_names vl_r val_r) !! var in
    (∀ mapping, kept = Some mapping →
       var ∈ var_names ∧ mapping ≠ ∅ ∧
       ∃ rl vec vnames,
         val_r = Some rl ∧ (var ∈ default [] (rl_names rl)) ∧
         rl_rx2 rl var = Some vec ∧ vec_names vec = Some vnames ∧
         ∀ code lab, mapping !! code = Some lab →
           blank lab = false ∧
           ∃ c, code = PStr c ∧
                (c, lab) ∈ zip (map py_str vnames) (map py_str (vec_items vec))) ∧
    (∀ rl vec vnames c lab,
       var ∈ var_names →
       val_r = Some rl → (var ∈ default [] (rl_names rl)) →
       rl_rx2 rl var = Some vec → vec_names vec = Some vnames →
       (c, lab) ∈ zip (map py_str vnames) (map py_str (vec_items vec)) →
       blank lab = false →
       ∃ mapping, kept = Some mapping ∧ is_Some (mapping !! PStr c) ∧
                  (NoDup (map py_str vnames) → mapping !! PStr c = Some lab)).
Proof.
  intros var_names vl_r val_r var kept. unfold kept.
  rewrite extract_labels_values_lookup. split.
  - intros mapping Hlook.
    destruct (decide (var ∈ var_names)) as [Hin|]; [|done].
    unfold value_labels_of in Hlook.
    destruct val_r as [rl|]; [|done]. case_bool_decide as Hvar; [|done].
    destruct (rl_rx2 rl var) as [vec|] eqn:Hvec; [|done].
    destruct (vec_items vec) as [|x items] eqn:Hitems; [done|].
    destruct (vec_names vec) as [vnames|] eqn:Hvn; [|done]. cbn zeta in Hlook.
    destruct (decide _) as [Hsz|]; [|done]. injection Hlook as <-.
    cbn [map] in Hsz.
    split; [done|]. split; [apply map_size_non_empty_iff; lia|].
    exists rl, vec, vnames. rewrite Hitems.
    split; [done|]. split; [done|]. split; [done|]. split; [done|].
    intros code lab Hcode. by apply code_mapping_lookup.
  - intros rl vec vnames c lab Hin -> Hvar Hvec Hvn Hpair Hb.
    rewrite decide_True by done. unfold value_labels_of.
    rewrite bool_decide_eq_true_2, Hvec, Hvn by done.
    pose proof (code_mapping_keeps _ _ _ _ Hpair Hb) as [lab' Hlab'].
    destruct (vec_items vec) as [|x items] eqn:Hitems.
    { change (map py_str []) with (@nil string) in Hpair.
      rewrite zip_with_nil_r in Hpair. by apply elem_of_nil in Hpair. }
    cbn zeta. rewrite decide_True.
    + eexists. split; [done|]. split; [by eexists|].
      intros Hnd. rewrite Hlab'. f_equal.
      destruct (code_mapping_lookup _ _ _ _ Hlab') as [_ (c' & [= <-] & Hin')].
      by eapply zip_NoDup_fst.
    + apply Nat.neq_0_lt_0. intros Hsz. apply map_size_empty_inv in Hsz.
      by rewrite Hsz, lookup_empty in Hlab'.
Qed.

(** ** The remote sheet and the exceptions of the normaliser *)

Lemma slice_header_data {A : Type} (header data : list A) (n : Z) :
  n = Z.of_nat (length header) ∨ (n < 0)%Z ∧ n = (- Z.of_nat (length data))%Z →
  slice_to (header ++ data) n = header ∧ slice_from (header ++ data) n = data.
Proof.
  unfold slice_to, slice_from. intros [-> | [Hneg ->]].
  - rewrite (proj2 (Z.leb_le 0 _)) by lia. rewrite Nat2Z.id.
    by rewrite take_app_length, drop_app_length.
  - rewrite (proj2 (Z.leb_gt _ _)) by lia.
    replace (length (header ++ data) - Z.to_nat (- - Z.of_nat (length data)))
      with (length header) by (rewrite length_app; lia).
    by rewrite take_app_length, drop_app_length.
Qed.

(** X21. Header and data of a remote sheet. With [n_headers = n] the
    flattener is called on the frame of the rows after the first [n], with
    the frame of the first [n] rows as header; by default the first row is
    the header; a negative [n] leaves that many rows, counted from the end,
    as data. When the split leaves no header row, as with [n_headers = 0],
    the call raises the [ValueError] of the flattener (given that a frame
    built from no rows has no rows). *)
Theorem read_gspread_header_split :
  ∀ to_frame rows n_headers kws,
    let n := default 1%Z n_headers in
    (∀ header data, rows = header ++ data →
       n = Z.of_nat (length header) ∨
       (n < 0)%Z ∧ n = (- Z.of_nat (length data))%Z →
       read_gspread_rows to_frame rows n_headers kws
       = _apply_multiheader_from_frames (frame_columns (to_frame data))
           (frame_rows (to_frame header)) kws) ∧
    (∀ row data, n_headers = None → rows = row :: data →
       read_gspread_rows to_frame rows n_headers kws
       = _apply_multiheader_from_frames (frame_columns (to_frame data))
           (frame_rows (to_frame [row])) kws) ∧
    ((n = 0%Z ∨ (n < 0)%Z ∧ (Z.of_nat (length rows) ≤ - n)%Z) →
     frame_rows (to_frame []) = [] →
       read_gspread_rows to_frame rows n_headers kws
       = Raise (ValueError
           "df_header must have at least one row (a header level).")).
Proof.
  intros to_frame rows n_headers kws n. split; [|split].
  - intros header data -> Hn. unfold read_gspread_rows. fold n.
    by destruct (slice_header_data header data n Hn) as [-> ->].
  - intros row data -> ->. reflexivity.
  - intros Hn Hempty. unfold read_gspread_rows. fold n.
    assert (Hhead : slice_to rows n = []).
    { unfold slice_to. destruct Hn as [-> | [Hneg Hlen]]; [done|].
      rewrite (proj2 (Z.leb_gt 0 n)) by lia.
      replace (length rows - Z.to_nat (- n)) with 0 by lia. done. }
    rewrite Hhead. unfold _apply_multiheader_from_frames.
    by rewrite Hempty.
Qed.

(** X22. Exceptions of the path normaliser. It raises only what the URL
    parser raises, a [ValueError], on a string with ["://"], or what the
    resolution of a path raises. A string without ["://"] that is not empty
    and a [Path] have the outcome of their resolution, result or exception;
    the string ["http://[::1/data.csv"] does raise. *)
Theorem normalizer_exceptions :
  (∀ E p e,
     _expand_to_full_path_or_url E p = Raise e →
     (∃ s msg, p = LocStr s ∧ str_contains "://" s = true ∧
               urlparse E s = Raise e ∧ e = ValueError msg) ∨
     (∃ t, resolve_path E t = Raise e)) ∧
  (∀ E s, str_contains "://" s = false → s ≠ "" →
     _expand_to_full_path_or_url E (LocStr s) = resolved E s) ∧
  (∀ E t, _expand_to_full_path_or_url E (LocPath t) = resolved E t) ∧
  (∀ E, _expand_to_full_path_or_url E (LocStr "http://[::1/data.csv")
        = Raise (ValueError "Invalid IPv6 URL")).
Proof.
  split; [|split; [|split]].
  - intros E p e Hraise.
    destruct (expand_raise E p e Hraise) as [(s & -> & Hin & Hparse)|Hres].
    + left. destruct (urlparse_raise _ _ _ Hparse) as [msg ->].
      by exists s, msg.
    + by right.
  - intros E s Hin Hne. simpl. rewrite Hin.
    unfold str_truthy, str_eqb. by rewrite bool_decide_eq_false_2.
  - done.
  - intros E. reflexivity.
Qed.

(** ** Instances of the properties above *)

(** A cell with a no-break space in front and a blank cell. *)
Lemma single_row_header_witness :
  let row0 := [PStr (String "160" "Age "); PStr (String "160" " ")] in
  NoDup ["column_1"; "column_2"] ∧
  length ["column_1"; "column_2"] = length row0 ∧
  ∃ new_names,
    header_new_names no_kws 1 2 [row0] = Return new_names ∧
    new_names !! 0 = Some "Age" ∧
    new_names !! 1 = Some ("column_" +:+ pretty (1 + 1)).
Proof.
  intros row0.
  assert (Hnd : NoDup ["column_1"; "column_2"])
    by (apply (bool_decide_unpack _); by vm_compute).
  assert (Hne : strip (String "160" "Age ") ≠ "None") by (by vm_compute).
  split; [exact Hnd|]. split; [reflexivity|].
  destruct (single_row_header no_kws ["column_1"; "column_2"] row0 Hnd eq_refl)
    as (new_names & Hrun & _ & _ & _ & Hcell).
  exists new_names. split; [exact Hrun|]. split.
  - exact (proj2 (Hcell 0 (PStr (String "160" "Age ")) eq_refl)
             eq_refl eq_refl (or_introl (conj eq_refl Hne))).
  - exact (proj1 (Hcell 1 (PStr (String "160" " ")) eq_refl)
             (or_intror eq_refl)).
Defined.

(** Two columns under the same two levels: the call is refused. *)
Lemma flattener_keeps_duplicates_witness :
  rectangular 2 [[PStr "A"; PStr "A"]; [PStr "x"; PStr "x"]] ∧
  NoDup ["column_1"; "column_2"] ∧
  length ["column_1"; "column_2"] = 2 ∧
  _apply_multiheader_from_frames ["column_1"; "column_2"]
    [[PStr "A"; PStr "A"]; [PStr "x"; PStr "x"]] no_kws
  = Raise DuplicateError.
Proof.
  assert (Hrect : rectangular 2 [[PStr "A"; PStr "A"]; [PStr "x"; PStr "x"]])
    by (repeat constructor).
  assert (Hnd : NoDup ["column_1"; "column_2"])
    by (apply (bool_decide_unpack _); by vm_compute).
  split; [exact Hrect|]. split; [exact Hnd|]. split; [reflexivity|].
  destruct (flattener_keeps_duplicates no_kws ["column_1"; "column_2"]
              [PStr "A"; PStr "A"] [[PStr "x"; PStr "x"]] Hrect Hnd eq_refl)
    as (rows2 & stacks & new_names & (Hfill & Hcollect & _) & Hsame & _).
  vm_compute in Hfill. injection Hfill as <-.
  vm_compute in Hcollect. injection Hcollect as Hstacks _. subst stacks.
  assert (Hne : 0 ≠ 1) by lia.
  assert (Hst : ["A"; "x"] ≠ []) by discriminate.
  exact (proj2 (Hsame 0 1 ["A"; "x"] Hne Hst eq_refl eq_refl)).
Defined.

Lemma flattener_renames_by_position_witness :
  rectangular 2 [[PStr "A"; PStr "B"]] ∧
  NoDup ["column_1"; "column_2"] ∧ NoDup ["0"; "1"] ∧
  _apply_multiheader_from_frames ["column_1"; "column_2"]
    [[PStr "A"; PStr "B"]] no_kws
  = _apply_multiheader_from_frames ["0"; "1"] [[PStr "A"; PStr "B"]] no_kws.
Proof.
  assert (Hrect : rectangular 2 [[PStr "A"; PStr "B"]]) by (repeat constructor).
  assert (Hnd : NoDup ["column_1"; "column_2"])
    by (apply (bool_decide_unpack _); by vm_compute).
  assert (Hnd' : NoDup ["0"; "1"])
    by (apply (bool_decide_unpack _); by vm_compute).
  split; [exact Hrect|]. split; [exact Hnd|]. split; [exact Hnd'|].
  exact (flattener_renames_by_position no_kws ["column_1"; "column_2"]
           ["0"; "1"] [PStr "A"; PStr "B"] [] Hrect Hnd eq_refl Hnd' eq_refl).
Defined.

Lemma blank_column_fallback_name_witness :
  rectangular 2 [[PNone; PStr "A"]; [PStr ""; PStr "x"]] ∧
  NoDup ["column_1"; "column_2"] ∧ 0 < 2 ∧
  ∃ new_names,
    header_new_names no_kws 2 2 [[PNone; PStr "A"]; [PStr ""; PStr "x"]]
    = Return new_names ∧
    new_names !! 0 = Some ("column_" +:+ pretty (0 + 1)).
Proof.
  assert (Hrect : rectangular 2 [[PNone; PStr "A"]; [PStr ""; PStr "x"]])
    by (repeat constructor).
  assert (Hnd : NoDup ["column_1"; "column_2"])
    by (apply (bool_decide_unpack _); by vm_compute).
  assert (Hc : 0 < 2) by lia.
  assert (Hblank : ∀ r row v,
            ([PNone; PStr "A"] :: [[PStr ""; PStr "x"]]) !! r = Some row →
            row !! 0 = Some v →
            is_missing (kws_sentinel no_kws) v = true ∧
            (r < length [[PStr ""; PStr "x"]] →
             none_left (kws_sentinel no_kws) row 0)).
  { intros r row v Hr Hv. split.
    - destruct r as [|[|r]]; simpl in Hr; try discriminate Hr;
        injection Hr as <-; simpl in Hv; injection Hv as <-; reflexivity.
    - intros _ j u Hj. lia. }
  split; [exact Hrect|]. split; [exact Hnd|]. split; [exact Hc|].
  destruct (blank_column_fallback_name no_kws ["column_1"; "column_2"]
              [PNone; PStr "A"] [[PStr ""; PStr "x"]] 0 Hrect Hnd eq_refl Hc
              Hblank) as (new_names & Hrun & Hname & _).
  exists new_names. split; [exact Hrun | exact Hname].
Defined.

Lemma label_model_keys_witness :
  "age" ∈ ["age"; "sex"] ∧
  is_Some (variables (__post_init__ ["age"; "sex"] ∅ ∅) !! "age").
Proof.
  assert (Hin : "age" ∈ ["age"; "sex"]) by left.
  split; [exact Hin|].
  exact (proj2 (proj1 (label_model_keys ["age"; "sex"] ∅ ∅ "age")) Hin).
Defined.

Lemma read_data_dispatch_by_family_witness :
  let kws := {| kw_names := ["fn"];
                kw_fn := LocStr "/tmp/x.csv"; kw_url := None;
                kw_credentials := None; kw_big_data := false;
                kw_cols := None; kw_rows_range := None |} in
  valid_location example_env kws "/tmp/x.csv" ∧
  kw_big_data kws = false ∧
  splitext_ext "/tmp/x.csv" ∈ csv_like ∧
  read_data example_env kws = Return (Some CallReadCsv).
Proof.
  intros kws.
  assert (Hvalid : valid_location example_env kws "/tmp/x.csv")
    by (split; [reflexivity|split; [reflexivity|right; reflexivity]]).
  assert (Hext : splitext_ext "/tmp/x.csv" ∈ csv_like)
    by (change (".csv" ∈ csv_like); left).
  split; [exact Hvalid|]. split; [reflexivity|]. split; [exact Hext|].
  exact (proj1 (read_data_dispatch_by_family example_env kws "/tmp/x.csv"
                  Hvalid eq_refl) Hext).
Defined.

Lemma read_data_unknown_extension_witness :
  let kws := {| kw_names := ["fn"];
                kw_fn := LocStr "https://example.org/data.json";
                kw_url := None; kw_credentials := None; kw_big_data := false;
                kw_cols := None; kw_rows_range := None |} in
  valid_location example_env kws "https://example.org/data.json" ∧
  kw_big_data kws = false ∧
  unknown_extension (splitext_ext "https://example.org/data.json") ∧
  read_data example_env kws = Return None.
Proof.
  intros kws.
  assert (Hvalid : valid_location example_env kws
                     "https://example.org/data.json")
    by (split; [reflexivity|split; [reflexivity|left; reflexivity]]).
  assert (Hunknown : unknown_extension
                       (splitext_ext "https://example.org/data.json")).
  { change (unknown_extension ".json").
    repeat split; apply (bool_decide_unpack _); by vm_compute. }
  split; [exact Hvalid|]. split; [reflexivity|]. split; [exact Hunknown|].
  exact (proj1 (read_data_unknown_extension example_env kws
                  "https://example.org/data.json" Hvalid eq_refl Hunknown)
           (or_introl eq_refl)).
Defined.

Lemma read_data_file_check_witness :
  let kws := {| kw_names := ["fn"];
                kw_fn := LocStr "/tmp/missing.csv"; kw_url := None;
                kw_credentials := None; kw_big_data := false;
                kw_cols := None; kw_rows_range := None |} in
  _expand_to_full_path_or_url example_env (kw_fn kws)
  = Return (Some "/tmp/missing.csv") ∧
  str_truthy "/tmp/missing.csv" = true ∧
  isfile example_env "/tmp/missing.csv" = false ∧
  read_data example_env kws
  = Raise (AssertionError ("File " +:+ "/tmp/missing.csv" +:+ " not found.")).
Proof.
  intros kws.
  split; [reflexivity|]. split; [reflexivity|]. split; [reflexivity|].
  exact (proj1 (read_data_file_check example_env kws "/tmp/missing.csv"
                  eq_refl eq_refl) eq_refl eq_refl).
Defined.

Lemma read_data_rejects_other_schemes_witness :
  let kws := {| kw_names := ["fn"];
                kw_fn := LocStr "s3://bucket/data.csv"; kw_url := None;
                kw_credentials := None; kw_big_data := false;
                kw_cols := None; kw_rows_range := None |} in
  urlparse example_env "s3://bucket/data.csv"
  = Return {| scheme := "s3"; netloc := "bucket"; path := "/data.csv" |} ∧
  String.prefix "http" "s3://bucket/data.csv" = false ∧
  isfile example_env "s3://bucket/data.csv" = false ∧
  read_data example_env kws
  = Raise (AssertionError
             ("File " +:+ "s3://bucket/data.csv" +:+ " not found.")).
Proof.
  intros kws.
  assert (Hne : "s3" ≠ "") by discriminate.
  assert (Hnf : "s3" ≠ "file") by discriminate.
  split; [reflexivity|]. split; [reflexivity|]. split; [reflexivity|].
  exact (read_data_rejects_other_schemes example_env kws
           "s3://bucket/data.csv"
           {| scheme := "s3"; netloc := "bucket"; path := "/data.csv" |}
           eq_refl eq_refl eq_refl Hne Hnf eq_refl eq_refl).
Defined.

Lemma read_csv_separator_never_empty_witness :
  "," ≠ "" ∧ read_csv_separator "data.csv" (Some ",") = ",".
Proof.
  assert (Hne : "," ≠ "") by discriminate.
  split; [exact Hne|].
  exact (proj1 (proj2 (read_csv_separator_never_empty "data.csv" (Some ",")))
           "," eq_refl Hne).
Defined.

Lemma read_sav_rows_range_shape_witness :
  let kws := {| kw_names := ["fn"; "rows_range"];
                kw_fn := LocStr "/tmp/survey.sav"; kw_url := None;
                kw_credentials := None; kw_big_data := false;
                kw_cols := None; kw_rows_range := Some [3; 7; 9]%Z |} in
  kw_rows_range kws = Some [3; 7; 9]%Z ∧
  read_sav kws = Return (CallReadSav None (3 - 1)%Z (7 - 3 + 1)%Z).
Proof.
  intros kws. split; [reflexivity|].
  exact (proj2 (read_sav_rows_range_shape kws [3; 7; 9]%Z eq_refl)
           3%Z 7%Z [9%Z] eq_refl).
Defined.

Lemma list_flatten_one_level_witness :
  Forall (λ x, _is_list x = false) [OAtom (PStr "a"); OAtom PNone] ∧
  _list_flatten [OAtom (PStr "a"); OAtom PNone]
  = [OAtom (PStr "a"); OAtom PNone].
Proof.
  assert (Hall : Forall (λ x, _is_list x = false)
                   [OAtom (PStr "a"); OAtom PNone]) by (repeat constructor).
  split; [exact Hall|].
  exact (proj1 list_flatten_one_level _ Hall).
Defined.

Lemma repeat_cycles_witness :
  3 < Z.to_nat 2 * length [OAtom (PStr "a"); OAtom (PStr "b")] ∧
  _repeat (OList [OAtom (PStr "a"); OAtom (PStr "b")]) 2 !! 3
  = [OAtom (PStr "a"); OAtom (PStr "b")] !! (3 mod 2).
Proof.
  assert (Hi : 3 < Z.to_nat 2 * length [OAtom (PStr "a"); OAtom (PStr "b")])
    by (vm_compute; lia).
  split; [exact Hi|].
  exact (proj2 (proj2 (repeat_cycles
           (OList [OAtom (PStr "a"); OAtom (PStr "b")]) 2%Z)) 3 Hi).
Defined.

Lemma load_r_dataframe_returns_data_frame_witness :
  let session := {| safe_readRDS := λ _ : string, Some true;
                    r_load := λ _ : string, [];
                    globalenv := λ _ _ : string, false;
                    is_data_frame := λ b : bool, b |} in
  let path := {| path_text := "/tmp/d.rds"; path_suffix := ".rds" |} in
  _load_r_dataframe session path None = Return true ∧
  is_data_frame session true = true.
Proof.
  intros session path. split; [reflexivity|].
  exact (proj1 (load_r_dataframe_returns_data_frame session path None)
           true eq_refl).
Defined.


Lemma r_family_accepted_by_loader_witness :
  ".rds" ∈ r_files ∧ ∃ t, _detect_file_type ".rds" = Return t.
Proof.
  assert (Hin : ".rds" ∈ r_files) by (do 3 right; left).
  split; [exact Hin|].
  exact (proj1 r_family_accepted_by_loader ".rds" Hin).
Defined.

(** A label that is kept, the label ["NA"] and a label of one no-break
    space. *)
Lemma extract_labels_variables_witness :
  let vec := λ l, Some {| vec_names := None; vec_items := [PStr l] |} in
  let rl := {| rl_names := Some ["age"; "sex"; "id"];
               rl_rx2 := λ var, if str_eqb var "age" then vec "Age in years"
                                else if str_eqb var "sex" then vec "NA"
                                else vec (String "160" "") |} in
  let labels := _extract_labels ["age"; "sex"; "id"] (Some rl) None in
  ("age" ∈ ["age"; "sex"; "id"]) ∧
  variables labels !! "age" = Some "Age in years" ∧
  variables labels !! "sex" = Some "sex" ∧
  variables labels !! "id" = Some "id".
Proof.
  intros vec rl labels.
  assert (Hage : "age" ∈ ["age"; "sex"; "id"])
    by (apply (bool_decide_unpack _); by vm_compute).
  assert (Hsex : "sex" ∈ ["age"; "sex"; "id"])
    by (apply (bool_decide_unpack _); by vm_compute).
  assert (Hid : "id" ∈ ["age"; "sex"; "id"])
    by (apply (bool_decide_unpack _); by vm_compute).
  assert (Hreal : ¬ na_text "Age in years")
    by (unfold na_text; apply (bool_decide_unpack _); by vm_compute).
  assert (Hna : na_text "NA")
    by (unfold na_text; apply (bool_decide_unpack _); by vm_compute).
  split; [exact Hage|]. split; [|split].
  - exact (proj1 (proj1 (extract_labels_variables ["age"; "sex"; "id"]
             (Some rl) None "age" Hage)
             rl ["age"; "sex"; "id"] _ (PStr "Age in years") []
             eq_refl eq_refl Hage eq_refl eq_refl) eq_refl Hreal).
  - exact (proj2 (proj1 (extract_labels_variables ["age"; "sex"; "id"]
             (Some rl) None "sex" Hsex)
             rl ["age"; "sex"; "id"] _ (PStr "NA") []
             eq_refl eq_refl Hsex eq_refl eq_refl) (or_intror Hna)).
  - exact (proj2 (proj1 (extract_labels_variables ["age"; "sex"; "id"]
             (Some rl) None "id" Hid)
             rl ["age"; "sex"; "id"] _ (PStr (String "160" "")) []
             eq_refl eq_refl Hid eq_refl eq_refl) (or_introl eq_refl)).
Defined.

(** Two codes, the second with a label of one no-break space. *)
Lemma extract_labels_values_witness :
  let vec := {| vec_names := Some [PStr "1"; PStr "2"];
                vec_items := [PStr "Male"; PStr (String "160" "")] |} in
  let rl := {| rl_names := Some ["sex"]; rl_rx2 := λ _, Some vec |} in
  ("sex" ∈ ["sex"]) ∧ blank "Male" = false ∧ NoDup ["1"; "2"] ∧
  ∃ mapping,
    values (_extract_labels ["sex"] None (Some rl)) !! "sex" = Some mapping ∧
    mapping !! PStr "1" = Some "Male".
Proof.
  intros vec rl.
  assert (Hin : "sex" ∈ ["sex"]) by left.
  assert (Hnd : NoDup ["1"; "2"])
    by (apply (bool_decide_unpack _); by vm_compute).
  assert (Hpair : ("1", "Male")
                  ∈ zip (map py_str [PStr "1"; PStr "2"])
                        (map py_str (vec_items vec))) by left.
  split; [exact Hin|]. split; [reflexivity|]. split; [exact Hnd|].
  destruct (proj2 (extract_labels_values ["sex"] None (Some rl) "sex")
              rl vec [PStr "1"; PStr "2"] "1" "Male"
              Hin eq_refl Hin eq_refl eq_refl Hpair eq_refl)
    as (mapping & Hkept & _ & Hlab).
  exists mapping. split; [exact Hkept | exact (Hlab Hnd)].
Defined.

(** A sheet of one header row and one data row, with the default
    [n_headers]. *)
Lemma read_gspread_header_split_witness :
  let to_frame := λ rows : list (list string),
                    {| frame_columns := ["0"; "1"];
                       frame_rows := map (map PStr) rows |} in
  [["Party"; "Age"]; ["1"; "23"]] = ["Party"; "Age"] :: [["1"; "23"]] ∧
  read_gspread_rows to_frame [["Party"; "Age"]; ["1"; "23"]] None no_kws
  = _apply_multiheader_from_frames ["0"; "1"]
      [[PStr "Party"; PStr "Age"]] no_kws ∧
  _apply_multiheader_from_frames ["0"; "1"] [[PStr "Party"; PStr "Age"]] no_kws
  = Return ["Party"; "Age"].
Proof.
  intros to_frame. split; [reflexivity|]. split; [|by vm_compute].
  exact (proj1 (proj2 (read_gspread_header_split to_frame
           [["Party"; "Age"]; ["1"; "23"]] None no_kws))
           ["Party"; "Age"] [["1"; "23"]] eq_refl eq_refl).
Defined.

(** A path with a null character and the home of an unknown user, on a
    host that refuses them. *)
Lemma normalizer_exceptions_witness :
  let p := "/tmp/a" +:+ String "000" "b" in
  str_contains "://" p = false ∧ p ≠ "" ∧
  str_contains "://" "~nosuchuser/x.csv" = false ∧ "~nosuchuser/x.csv" ≠ "" ∧
  _expand_to_full_path_or_url refusing_env (LocStr p)
  = Raise (ValueError "embedded null byte") ∧
  _expand_to_full_path_or_url refusing_env (LocStr "~nosuchuser/x.csv")
  = Raise (RuntimeError "Could not determine home directory.").
Proof.
  intros p.
  assert (Hne : p ≠ "") by discriminate.
  assert (Hne' : "~nosuchuser/x.csv" ≠ "") by discriminate.
  split; [reflexivity|]. split; [exact Hne|].
  split; [reflexivity|]. split; [exact Hne'|]. split.
  - exact (proj1 (proj2 normalizer_exceptions) refusing_env p eq_refl Hne).
  - exact (proj1 (proj2 normalizer_exceptions) refusing_env
             "~nosuchuser/x.csv" eq_refl Hne').
Defined.
